(** * django-termsandconditions: the model helpers of [termsandconditions/models.py]

    A shallow embedding of the two Django models and of the static helpers of
    [TermsAndConditions]: the relational store is a pair of row lists, the
    process-wide cache is a finite map from keys to Python values, and every
    helper is a computation that threads the cache and the log and may end in
    one of the exceptions the source names or lets through. *)

From Stdlib Require Import ZArith Lia.
From stdpp Require Import base strings gmap list sorting.

Local Open Scope Z_scope.

(** ** The persisted rows *)

(** The fallback of [getattr(settings, 'DEFAULT_TERMS_SLUG', 'site-terms')]. *)
Definition DEFAULT_TERMS_SLUG : string := "site-terms".

(** [TermsAndConditions]: one version of a document.  [pk] is Django's primary
    key [id]; timestamps are integers (microseconds); [version_number] counts
    hundredths, as the [DecimalField] has two decimal places. *)
Record TermsAndConditions := {
  pk : Z;
  slug : string;
  name : string;
  version_number : Z;
  text : option string;
  info : option string;
  date_active : option Z;
  date_created : Z
}.

(** [UserTermsAndConditions]: user [user] accepted the version whose primary key
    is [terms] (both are foreign keys, declared NOT NULL). *)
Record UserTermsAndConditions := {
  ut_pk : Z;
  user : Z;
  terms : Z;
  ip_address : option string;
  date_accepted : Z
}.

Global Instance TermsAndConditions_eq_dec : EqDecision TermsAndConditions.
Proof. solve_decision. Defined.

Global Instance UserTermsAndConditions_eq_dec : EqDecision UserTermsAndConditions.
Proof. solve_decision. Defined.

Record tables := {
  terms_rows : list TermsAndConditions;
  userterms_rows : list UserTermsAndConditions
}.

(** Before the first migration the tables do not exist and every query that
    reaches the database raises.  What it raises depends on the backend:
    PostgreSQL and MySQL report a missing table as [ProgrammingError], the
    exception the handlers of the source name, and that state is [Unmigrated];
    SQLite reports it as [OperationalError], and that state is
    [UnmigratedSQLite].  A migrated database answers as SQLite does (see
    [group_max]). *)
Inductive database :=
  | Unmigrated
  | UnmigratedSQLite
  | Migrated (tb : tables).

(** ** Python values, exceptions and the ambient state *)

Inductive exn :=
  | DoesNotExist
  | MultipleObjectsReturned
  | TypeError
  | ProgrammingError
  | OperationalError.

Global Instance exn_eq_dec : EqDecision exn.
Proof. solve_decision. Defined.

Inductive result (A : Type) :=
  | Ok (a : A)
  | Raise (e : exn).
Arguments Ok {A} a.
Arguments Raise {A} e.

(** What the helpers return and what the cache holds.  A [QuerySet] is pickled
    by [cache.set], which fetches its rows, so a stored or returned query set is
    its list of rows.  [PLazyQuerySet] is a query set whose rows were never
    fetched because fetching them raised; it only arises in
    [get_active_terms_list]. *)
Inductive pyval :=
  | PNone
  | PTerms (t : TermsAndConditions)
  | PIds (ids : list Z)
  | PQuerySet (rows : list TermsAndConditions)
  | PLazyQuerySet.

Global Instance pyval_eq_dec : EqDecision pyval.
Proof. solve_decision. Defined.

(** Python truthiness, the test behind [if not x]: [None], the empty list and
    the empty query set are false, a model instance is true.  No helper stores
    a [PLazyQuerySet], which cannot be pickled; its entry here is never
    consulted by a reachable cache. *)
Definition truthy (v : pyval) : bool :=
  match v with
  | PNone => false
  | PTerms _ => true
  | PIds ids => match ids with [] => false | _ => true end
  | PQuerySet rows => match rows with [] => false | _ => true end
  | PLazyQuerySet => true
  end.

Inductive level := ERROR | WARNING.

Record world := {
  cache : gmap string pyval;
  log : list (level * string)
}.

(** ** The computation monad: state passing with exceptions *)

Definition M (A : Type) : Type := world → result A * world.

Global Instance M_ret : MRet M := λ A a w, (Ok a, w).

Global Instance M_bind : MBind M := λ A B f m w,
  match m w with
  | (Ok a, w') => f a w'
  | (Raise e, w') => (Raise e, w')
  end.

(** A database call; it does not touch the cache or the log. *)
Definition orm {A} (r : result A) : M A := λ w, (r, w).

(** [try: body except ...:] where [handler e] is the matching clause, if any. *)
Definition try_except {A} (body : M A) (handler : exn → option (M A)) : M A := λ w,
  match body w with
  | (Ok a, w') => (Ok a, w')
  | (Raise e, w') =>
      match handler e with
      | Some h => h w'
      | None => (Raise e, w')
      end
  end.

(** [cache.get(key)]: [None] when the key is absent. *)
Definition cached (key : string) (w : world) : pyval :=
  default PNone (cache w !! key).

Definition cache_get (key : string) : M pyval := λ w, (Ok (cached key w), w).

Definition cache_set (key : string) (v : pyval) : M unit := λ w,
  (Ok (), {| cache := <[key := v]> (cache w); log := log w |}).

Definition LOGGER (lv : level) (msg : string) : M unit := λ w,
  (Ok (), {| cache := cache w; log := log w ++ [(lv, msg)] |}).

(** ** The queries *)

(** A query that reaches the database: without the tables it ends in the
    backend's report of a missing table. *)
Definition with_tables {A} (db : database) (q : tables → result A) : result A :=
  match db with
  | Unmigrated => Raise ProgrammingError
  | UnmigratedSQLite => Raise OperationalError
  | Migrated tb => q tb
  end.

(** Ordering of a nullable timestamp column, NULL first. *)
Definition date_lt (a b : option Z) : bool :=
  match a, b with
  | _, None => false
  | None, Some _ => true
  | Some x, Some y => x <? y
  end.

Fixpoint latest_from (best : TermsAndConditions) (rows : list TermsAndConditions)
  : TermsAndConditions :=
  match rows with
  | [] => best
  | t :: rows' =>
      latest_from (if date_lt (date_active best) (date_active t) then t else best) rows'
  end.

(** [.latest('date_active')]: ORDER BY date_active DESC LIMIT 1, fetched with
    [get()].  Among rows with the same greatest timestamp the database may
    return any; the model keeps the first in scan order. *)
Definition latest (rows : list TermsAndConditions) : result TermsAndConditions :=
  match rows with
  | [] => Raise DoesNotExist
  | t :: rows' => Ok (latest_from t rows')
  end.

(** [date_active__isnull=False, date_active__lte=now, slug=slug] *)
Definition active_for (now : Z) (s : string) (t : TermsAndConditions) : bool :=
  match date_active t with
  | Some d => (d <=? now) && bool_decide (slug t = s)
  | None => false
  end.

Definition query_active (db : database) (now : Z) (s : string)
  : result TermsAndConditions :=
  with_tables db (λ tb, latest (filter (λ t, active_for now s t) (terms_rows tb))).

(** ** [TermsAndConditions.get_active]

    The helpers are static methods; the slug is passed explicitly, callers
    that omit it pass [DEFAULT_TERMS_SLUG]. *)

Definition active_terms_key (s : string) : string := "tandc.active_terms_" +:+ s.

(** The branch under [if not active_terms:]. *)
Definition get_active_lookup (db : database) (now : Z) (s : string) : M pyval :=
  try_except
    (active_terms ← orm (query_active db now s);
     cache_set (active_terms_key s) (PTerms active_terms);;
     mret (PTerms active_terms))
    (λ e, match e with
          | DoesNotExist =>
              Some (LOGGER ERROR "Requested Terms and Conditions that Have Not Been Created.";;
                    mret PNone)
          | _ => None
          end).

Definition get_active (db : database) (now : Z) (s : string) : M pyval :=
  active_terms ← cache_get (active_terms_key s);
  if negb (truthy active_terms) then get_active_lookup db now s
  else mret active_terms.

(** ** [TermsAndConditions.get_active_terms_ids] *)

(** [WHERE date_active IS NOT NULL AND date_active < now] *)
Definition raw_where (now : Z) (t : TermsAndConditions) : bool :=
  match date_active t with
  | Some d => d <? now
  | None => false
  end.

Definition slug_le (a b : TermsAndConditions) : Prop := String.le (slug a) (slug b).

Global Instance slug_le_dec : RelDecision slug_le.
Proof. intros a b. unfold slug_le. apply _. Defined.

Global Instance slug_le_total : Total slug_le.
Proof. intros a b. unfold slug_le. apply (total String.le). Qed.

Global Instance slug_le_trans : Transitive slug_le.
Proof. intros a b c. unfold slug_le. apply (transitivity (R:=String.le)). Qed.

(** [ORDER BY slug] / [order_by('slug')].  Rows of equal slug come in the
    order the sort leaves them in; the database promises none. *)
Definition order_by_slug (rows : list TermsAndConditions) : list TermsAndConditions :=
  merge_sort slug_le rows.

(** The groups of [GROUP BY slug ORDER BY slug]: the distinct slugs, ascending. *)
Definition group_slugs (rows : list TermsAndConditions) : list string :=
  merge_sort String.le (remove_dups (slug <$> rows)).

(** [SELECT id, slug, max(date_active) ... GROUP BY slug]: one output row per
    group.  [id] is a bare column of an aggregate query; the model follows
    SQLite, where a bare column next to a single [max()] is read from the row
    that holds the maximum. *)
Definition group_max (rows : list TermsAndConditions) (s : string)
  : option TermsAndConditions :=
  match latest (filter (λ t, slug t = s) rows) with
  | Ok t => Some t
  | Raise _ => None
  end.

Definition raw_active_terms_set (db : database) (now : Z)
  : result (list TermsAndConditions) :=
  with_tables db (λ tb,
    let rows := filter (λ t, raw_where now t) (terms_rows tb) in
    Ok (omap (group_max rows) (group_slugs rows))).

Definition active_terms_ids_key : string := "tandc.active_terms_ids".

(** The source appends to a list that is still empty when the query raises:
    the raw query is sent when the loop starts. *)
Definition get_active_terms_ids_lookup (db : database) (now : Z) : M pyval :=
  try_except
    (active_terms_set ← orm (raw_active_terms_set db now);
     let active_terms_ids := PIds (pk <$> active_terms_set) in
     cache_set active_terms_ids_key active_terms_ids;;
     mret active_terms_ids)
    (λ e, match e with
          | ProgrammingError =>
              Some (LOGGER WARNING "Unable to find active terms ids because terms and conditions tables not initialized.";;
                    mret (PIds []))
          | _ => None
          end).

Definition get_active_terms_ids (db : database) (now : Z) : M pyval :=
  active_terms_ids ← cache_get active_terms_ids_key;
  if negb (truthy active_terms_ids) then get_active_terms_ids_lookup db now
  else mret active_terms_ids.

(** ** [TermsAndConditions.get_active_terms_list] *)

(** The right-hand side of [id__in=]: a list of keys or a query set; anything
    else is not iterable. *)
Definition as_id_list (v : pyval) : result (list Z) :=
  match v with
  | PIds ids => Ok ids
  | PQuerySet rows => Ok (pk <$> rows)
  | _ => Raise TypeError
  end.

(** [filter(id__in=ids).order_by('slug')], fetched.  With no keys Django
    answers with the empty result without sending a query. *)
Definition filter_id_in (db : database) (ids : list Z)
  : result (list TermsAndConditions) :=
  match ids with
  | [] => Ok []
  | _ => with_tables db (λ tb,
           Ok (order_by_slug (filter (λ t, pk t ∈ ids) (terms_rows tb))))
  end.

Definition active_terms_list_key : string := "tandc.active_terms_list".

(** [ProgrammingError] can only come from fetching the rows, which happens
    inside [cache.set]; the variable then holds the unfetched query set. *)
Definition get_active_terms_list_lookup (db : database) (now : Z) : M pyval :=
  try_except
    (ids ← get_active_terms_ids db now;
     id_list ← orm (as_id_list ids);
     rows ← orm (filter_id_in db id_list);
     cache_set active_terms_list_key (PQuerySet rows);;
     mret (PQuerySet rows))
    (λ e, match e with
          | ProgrammingError =>
              Some (LOGGER WARNING "Unable to find active terms list because terms and conditions tables not initialized.";;
                    mret PLazyQuerySet)
          | _ => None
          end).

Definition get_active_terms_list (db : database) (now : Z) : M pyval :=
  active_terms_list ← cache_get active_terms_list_key;
  if negb (truthy active_terms_list) then get_active_terms_list_lookup db now
  else mret active_terms_list.

(** ** The acceptance checks *)

(** [QuerySet.get()] on the fetched rows. *)
Definition get_one {A} (rows : list A) : result A :=
  match rows with
  | [] => Raise DoesNotExist
  | [r] => Ok r
  | _ => Raise MultipleObjectsReturned
  end.

Definition accepted_by (usr : Z) (t : TermsAndConditions) (r : UserTermsAndConditions)
  : Prop := user r = usr ∧ terms r = pk t.

Global Instance accepted_by_dec usr t r : Decision (accepted_by usr t r).
Proof. unfold accepted_by. apply _. Defined.

(** A query set given as [terms=] is not looked at row by row: Django compares
    the foreign key with a scalar sub-select of the query behind the query set,
    run on the current tables.  The embedding keeps the fetched rows of a query
    set, not its query, so the key that the sub-select yields, [None] for the
    NULL of a sub-select without rows, is a parameter of the acceptance
    checks. *)
Definition subselect : Type := tables → pyval → option Z.

Definition accepted_key (usr k : Z) (r : UserTermsAndConditions) : Prop :=
  user r = usr ∧ terms r = k.

Global Instance accepted_key_dec usr k r : Decision (accepted_key usr k r).
Proof. unfold accepted_key. apply _. Defined.

(** [UserTermsAndConditions.objects.get(user=user, terms=terms)].  [terms=None]
    asks for a NULL foreign key, which no row has; a model instance is
    compared by its primary key; a list of keys is no primary key and fails
    with [TypeError] before any query is sent; a query set is compared through
    its sub-select. *)
Definition userterms_get (sub : subselect) (db : database) (usr : Z) (tm : pyval)
  : result UserTermsAndConditions :=
  match tm with
  | PNone => with_tables db (λ _, Raise DoesNotExist)
  | PTerms t => with_tables db (λ tb, get_one (filter (accepted_by usr t) (userterms_rows tb)))
  | PIds _ => Raise TypeError
  | PQuerySet _ | PLazyQuerySet =>
      with_tables db (λ tb,
        match sub tb tm with
        | Some k => get_one (filter (accepted_key usr k) (userterms_rows tb))
        | None => Raise DoesNotExist
        end)
  end.

Definition agreed_to_latest_try (sub : subselect) (db : database) (now : Z) (usr : Z)
    (s : string) : M bool :=
  active ← get_active db now s;
  orm (userterms_get sub db usr active);;
  mret true.

Definition agreed_to_latest (sub : subselect) (db : database) (now : Z) (usr : Z)
    (s : string) : M bool :=
  try_except (agreed_to_latest_try sub db now usr s)
    (λ e, match e with
          | MultipleObjectsReturned => Some (mret true)
          | DoesNotExist => Some (mret false)
          | TypeError => Some (mret false)
          | _ => None
          end).

Definition agreed_to_terms (sub : subselect) (db : database) (usr : Z) (tm : pyval)
  : M bool :=
  try_except (orm (userterms_get sub db usr tm);; mret true)
    (λ e, match e with
          | DoesNotExist => Some (mret false)
          | TypeError => Some (mret false)
          | _ => None
          end).

(** ** [TermsAndConditions.get_active_terms_not_agreed_to] *)

(** [UserTermsAndConditions.objects.filter(user=user).values_list('id')] *)
Definition userterms_ids_of (tb : tables) (usr : Z) : list Z :=
  ut_pk <$> filter (λ r, user r = usr) (userterms_rows tb).

(** [userterms__in=ids] across the reverse foreign key: some acceptance row of
    this version has its key among [ids]. *)
Definition userterms_in (tb : tables) (ids : list Z) (t : TermsAndConditions) : Prop :=
  Exists (λ r, terms r = pk t ∧ ut_pk r ∈ ids) (userterms_rows tb).

Global Instance userterms_in_dec tb ids t : Decision (userterms_in tb ids t).
Proof. unfold userterms_in. apply _. Defined.

(** [filter(id__in=ids).exclude(userterms__in=...).order_by('slug')], fetched. *)
Definition not_agreed_query (db : database) (ids : list Z) (usr : Z)
  : result (list TermsAndConditions) :=
  match ids with
  | [] => Ok []
  | _ => with_tables db (λ tb,
           Ok (order_by_slug
                 (filter (λ t, pk t ∈ ids ∧ ¬ userterms_in tb (userterms_ids_of tb usr) t)
                         (terms_rows tb))))
  end.

Definition not_agreed_terms_key : string := "tandc_not_agreed_terms".

Definition get_active_terms_not_agreed_to_lookup (db : database) (now : Z) (usr : Z)
  : M pyval :=
  try_except
    (ids ← get_active_terms_ids db now;
     id_list ← orm (as_id_list ids);
     rows ← orm (not_agreed_query db id_list usr);
     cache_set not_agreed_terms_key (PQuerySet rows);;
     mret (PQuerySet rows))
    (λ e, match e with
          | TypeError => Some (mret PNone)
          | DoesNotExist => Some (mret PNone)
          | _ => None
          end).

Definition get_active_terms_not_agreed_to (db : database) (now : Z) (usr : Z)
  : M pyval :=
  not_agreed_terms ← cache_get not_agreed_terms_key;
  if negb (truthy not_agreed_terms) then get_active_terms_not_agreed_to_lookup db now usr
  else mret not_agreed_terms.

(** ** Specification vocabulary *)

(** The helper finds nothing usable under [key]: the key is absent or holds a
    false value, so the [if not ...] branch runs. *)
Definition cache_miss (key : string) (w : world) : Prop :=
  truthy (cached key w) = false.

(** [t] is activated for slug [s] at time [now]. *)
Definition activated (now : Z) (s : string) (t : TermsAndConditions) : Prop :=
  slug t = s ∧ ∃ d, date_active t = Some d ∧ d ≤ now.

(** The active version of a slug: an activated row of the slug whose
    [date_active] is greatest among the activated rows of the slug. *)
Definition is_active_version (tb : tables) (now : Z) (s : string)
    (t : TermsAndConditions) : Prop :=
  t ∈ terms_rows tb ∧ activated now s t ∧
  ∀ t' d d', t' ∈ terms_rows tb → activated now s t' →
    date_active t = Some d → date_active t' = Some d' → d' ≤ d.

(** The uniqueness constraint [unique_together = ('user', 'terms')]. *)
Definition unique_together (tb : tables) : Prop :=
  NoDup ((λ r, (user r, terms r)) <$> userterms_rows tb).

(** Primary keys identify rows. *)
Definition primary_keys (tb : tables) : Prop :=
  NoDup (pk <$> terms_rows tb) ∧ NoDup (ut_pk <$> userterms_rows tb).

(** User [usr] has an acceptance row for version [t]. *)
Definition has_accepted (tb : tables) (usr : Z) (t : TermsAndConditions) : Prop :=
  Exists (accepted_by usr t) (userterms_rows tb).

Global Instance has_accepted_dec tb usr t : Decision (has_accepted tb usr t).
Proof. unfold has_accepted. apply _. Defined.

(** The same for whatever [get_active] handed back: a model instance stands
    for its own key, a query set for the key its sub-select yields, and nothing
    else can have acceptance rows. *)
Definition accepted_value (sub : subselect) (tb : tables) (usr : Z) (v : pyval) : Prop :=
  match v with
  | PTerms t => has_accepted tb usr t
  | PQuerySet _ | PLazyQuerySet =>
      match sub tb v with
      | Some k => Exists (accepted_key usr k) (userterms_rows tb)
      | None => False
      end
  | _ => False
  end.

Global Instance accepted_value_dec sub tb usr v : Decision (accepted_value sub tb usr v).
Proof. destruct v; simpl; try apply _; destruct (sub tb _); apply _. Defined.

(** [agreed_to_terms(user, get_active(slug))], the composition that the
    specification compares [agreed_to_latest] with. *)
Definition agreed_to_terms_of_active (sub : subselect) (db : database) (now : Z)
    (usr : Z) (s : string) : M bool :=
  active ← get_active db now s;
  agreed_to_terms sub db usr active.

(** One call of a helper: the store and the time it runs at and, for
    [get_active_terms_not_agreed_to], the user it is asked about. *)
Record call := {
  at_db : database;
  at_now : Z;
  for_user : Z
}.

(** Consecutive calls of a helper on the shared cache, with their results. *)
Fixpoint calls (h : call → M pyval) (es : list call) (w : world)
  : list (result pyval) * world :=
  match es with
  | [] => ([], w)
  | e :: es' =>
      let '(r, w') := h e w in
      let '(rs, w'') := calls h es' w' in
      (r :: rs, w'')
  end.


(** The rows that the raw query of [get_active_terms_ids] yields on a
    migrated database: [raw_active_terms_set (Migrated tb) now] is
    [Ok (active_terms_set tb now)]. *)
Definition active_terms_set (tb : tables) (now : Z) : list TermsAndConditions :=
  omap (group_max (filter (λ t, raw_where now t) (terms_rows tb)))
       (group_slugs (filter (λ t, raw_where now t) (terms_rows tb))).







(** ** Sample stores *)

Definition mk_terms (i : Z) (s : string) (d : option Z) : TermsAndConditions :=
  {| pk := i; slug := s; name := "Terms"; version_number := 100;
     text := None; info := None; date_active := d; date_created := 0 |}.

Definition mk_userterms (i usr t : Z) : UserTermsAndConditions :=
  {| ut_pk := i; user := usr; terms := t; ip_address := None; date_accepted := 0 |}.

Definition empty_world : world := {| cache := ∅; log := [] |}.

(** The sub-select of a query set whose query still yields the rows that were
    fetched, as SQLite evaluates it: the key of the first row. *)
Definition first_row_key : subselect := λ _ v,
  match v with
  | PQuerySet (t :: _) => Some (pk t)
  | _ => None
  end.

(** One slug with a draft and two activated versions. *)
Definition three_versions : tables :=
  {| terms_rows := [mk_terms 1 DEFAULT_TERMS_SLUG None;
                    mk_terms 2 DEFAULT_TERMS_SLUG (Some 5);
                    mk_terms 3 DEFAULT_TERMS_SLUG (Some 8)];
     userterms_rows := [] |}.

(** User 7 accepted version 3 once; user 8 has two acceptance rows for it,
    which the uniqueness constraint forbids. *)
Definition accepted_once : tables :=
  {| terms_rows := terms_rows three_versions;
     userterms_rows := [mk_userterms 1 7 3] |}.

Definition accepted_twice : tables :=
  {| terms_rows := terms_rows three_versions;
     userterms_rows := [mk_userterms 1 8 3; mk_userterms 2 8 3] |}.

(** Two slugs, both with an activated version (keys 2 and 3); user 7 accepted
    the active version of "privacy" only, user 8 accepted nothing. *)
Definition two_slugs : tables :=
  {| terms_rows := [mk_terms 1 "privacy" (Some 2);
                    mk_terms 2 "privacy" (Some 6);
                    mk_terms 3 DEFAULT_TERMS_SLUG (Some 4)];
     userterms_rows := [mk_userterms 1 7 2] |}.

(** A slug whose newest version is activated at the very instant 10. *)
Definition activated_now : tables :=
  {| terms_rows := [mk_terms 1 DEFAULT_TERMS_SLUG (Some 5);
                    mk_terms 2 DEFAULT_TERMS_SLUG (Some 10);
                    mk_terms 3 "privacy" (Some 10)];
     userterms_rows := [] |}.

(** A document whose slug is "ids", a valid slug like any other. *)
Definition slug_named_ids : tables :=
  {| terms_rows := [mk_terms 1 "ids" (Some 5); mk_terms 2 DEFAULT_TERMS_SLUG (Some 6)];
     userterms_rows := [mk_userterms 1 7 1] |}.

(** One slug with nothing but a draft and a version activated in the future. *)
Definition nothing_activated : tables :=
  {| terms_rows := [mk_terms 1 DEFAULT_TERMS_SLUG None;
                    mk_terms 2 DEFAULT_TERMS_SLUG (Some 20)];
     userterms_rows := [] |}.



(** ** Facts about [latest] *)

Lemma date_lt_asym a b : date_lt a b = true → date_lt b a = false.
Proof.
  destruct a, b; simpl; try done.
  intros H%Z.ltb_lt. apply Z.ltb_ge. lia.
Qed.

Lemma date_nlt_trans a b c :
  date_lt a b = false → date_lt b c = false → date_lt a c = false.
Proof.
  destruct a, b, c; simpl; try done.
  intros H1%Z.ltb_ge H2%Z.ltb_ge. apply Z.ltb_ge. lia.
Qed.

Lemma latest_from_elem rows : ∀ best, latest_from best rows ∈ best :: rows.
Proof.
  induction rows as [|t rows IH]; intros best; simpl.
  - set_solver.
  - pose proof (IH (if date_lt (date_active best) (date_active t) then t else best)) as H.
    destruct (date_lt (date_active best) (date_active t));
      apply elem_of_cons in H as [->|H]; repeat constructor; done.
Qed.

Lemma latest_from_max rows : ∀ best t,
  t ∈ best :: rows →
  date_lt (date_active (latest_from best rows)) (date_active t) = false.
Proof.
  induction rows as [|x rows IH]; intros best t Ht; simpl.
  - apply list_elem_of_singleton in Ht as ->. by destruct (date_active best); simpl; rewrite ?Z.ltb_irrefl.
  - destruct (date_lt (date_active best) (date_active x)) eqn:Hlt.
    + apply elem_of_cons in Ht as [->|Ht].
      * eapply date_nlt_trans; [apply (IH x x); set_solver|by apply date_lt_asym].
      * apply IH. set_solver.
    + apply elem_of_cons in Ht as [->|Ht]; [apply IH; set_solver|].
      apply elem_of_cons in Ht as [->|Ht]; [|apply IH; set_solver].
      eapply date_nlt_trans; [apply (IH best best); set_solver|done].
Qed.

Lemma latest_spec rows :
  match latest rows with
  | Ok t => t ∈ rows ∧ ∀ t', t' ∈ rows → date_lt (date_active t) (date_active t') = false
  | Raise e => e = DoesNotExist ∧ rows = []
  end.
Proof.
  destruct rows as [|x rows]; simpl; [done|].
  split; [apply latest_from_elem|]. intros t' Ht'. by apply latest_from_max.
Qed.

Lemma active_for_activated now s t : active_for now s t ↔ activated now s t.
Proof.
  unfold active_for, activated. destruct (date_active t) as [d|].
  - rewrite andb_True, bool_decide_spec, Is_true_true, Z.leb_le.
    split; [intros [? ?]; split; [done|by exists d]|].
    intros [? (d' & [= <-] & ?)]. done.
  - split; [done|]. by intros [_ (d' & ? & _)].
Qed.

Lemma query_active_spec tb now s :
  match query_active (Migrated tb) now s with
  | Ok t => is_active_version tb now s t
  | Raise e => e = DoesNotExist ∧ ∀ t, t ∈ terms_rows tb → ¬ activated now s t
  end.
Proof.
  unfold query_active; simpl.
  pose proof (latest_spec (filter (λ t, active_for now s t) (terms_rows tb))) as H.
  destruct (latest _) as [t|e].
  - destruct H as [Hin Hmax]. apply list_elem_of_filter in Hin as [Hact Hin].
    apply active_for_activated in Hact.
    split; [done|]. split; [done|].
    intros t' d d' Hin' Hact' Hd Hd'.
    specialize (Hmax t'). rewrite Hd, Hd' in Hmax. simpl in Hmax.
    apply Z.ltb_ge, Hmax, list_elem_of_filter. split; [|done].
    by apply active_for_activated.
  - destruct H as [-> Hnil]. split; [done|]. intros t Hin Hact.
    assert (t ∈ filter (λ t, active_for now s t) (terms_rows tb)) as Hf.
    { apply list_elem_of_filter. split; [|done]. by apply active_for_activated. }
    rewrite Hnil in Hf. by apply not_elem_of_nil in Hf.
Qed.

(** ** [get_active] *)

Lemma get_active_hit db now s w :
  truthy (cached (active_terms_key s) w) = true →
  get_active db now s w = (Ok (cached (active_terms_key s) w), w).
Proof. intros H. unfold get_active, mbind, M_bind, cache_get. by rewrite H. Qed.

Lemma get_active_on_miss db now s w :
  cache_miss (active_terms_key s) w →
  get_active db now s w = get_active_lookup db now s w.
Proof. intros H. unfold get_active, mbind, M_bind, cache_get. by rewrite H. Qed.

Lemma get_active_lookup_eq db now s w :
  get_active_lookup db now s w =
  match query_active db now s with
  | Ok t => (Ok (PTerms t),
             {| cache := <[active_terms_key s := PTerms t]> (cache w); log := log w |})
  | Raise DoesNotExist =>
      (Ok PNone,
       {| cache := cache w;
          log := log w ++ [(ERROR, "Requested Terms and Conditions that Have Not Been Created.")] |})
  | Raise e => (Raise e, w)
  end.
Proof.
  unfold get_active_lookup, try_except, mbind, M_bind, orm.
  destruct (query_active db now s) as [t|[]]; reflexivity.
Qed.

(** C1.  On a cache miss for the slug's key, [get_active slug] returns the row
    of that slug with non-null [date_active <= now] whose [date_active] is the
    greatest among such rows (and stores it in the cache); in particular, when
    the slug's versions carry the timestamps null, [t1] and [t2] with
    [t1 < t2 <= now], the returned version is one with [date_active = t2]. *)
Theorem get_active_returns_latest tb now s w :
  cache_miss (active_terms_key s) w →
  (∃ t, t ∈ terms_rows tb ∧ activated now s t) →
  ∃ t,
    get_active (Migrated tb) now s w =
      (Ok (PTerms t),
       {| cache := <[active_terms_key s := PTerms t]> (cache w); log := log w |})
    ∧ is_active_version tb now s t
    ∧ ∀ t1 t2, t1 < t2 → t2 ≤ now →
        (∀ t', t' ∈ terms_rows tb → slug t' = s →
               date_active t' ∈ [None; Some t1; Some t2]) →
        (∃ t', t' ∈ terms_rows tb ∧ slug t' = s ∧ date_active t' = Some t2) →
        date_active t = Some t2.
Proof.
  intros Hmiss (t0 & Hin0 & Hact0).
  rewrite get_active_on_miss, get_active_lookup_eq by done.
  pose proof (query_active_spec tb now s) as Hq.
  destruct (query_active (Migrated tb) now s) as [t|e].
  - exists t. split; [done|]. split; [done|].
    intros t1 t2 Hlt Hle Hvals (t' & Hin' & Hslug' & Hd').
    destruct Hq as (Hin & [Hslug (d & Hd & Hdle)] & Hmax).
    assert (t2 ≤ d) as Hge.
    { apply (Hmax t' d t2); try done. split; [done|]. by exists t2. }
    specialize (Hvals t Hin Hslug). rewrite Hd in Hvals.
    apply elem_of_cons in Hvals as [Hv|Hvals]; [done|].
    apply elem_of_cons in Hvals as [Hv|Hvals]; [injection Hv as ->; lia|].
    apply list_elem_of_singleton in Hvals. congruence.
  - destruct Hq as [_ Hnone]. by destruct (Hnone t0 Hin0).
Qed.

Lemma get_active_returns_latest_witness :
  cache_miss (active_terms_key DEFAULT_TERMS_SLUG) empty_world ∧
  (∃ t, t ∈ terms_rows three_versions ∧ activated 10 DEFAULT_TERMS_SLUG t) ∧
  ∃ t,
    get_active (Migrated three_versions) 10 DEFAULT_TERMS_SLUG empty_world =
      (Ok (PTerms t),
       {| cache := <[active_terms_key DEFAULT_TERMS_SLUG := PTerms t]> (cache empty_world);
          log := log empty_world |})
    ∧ is_active_version three_versions 10 DEFAULT_TERMS_SLUG t
    ∧ ∀ t1 t2, t1 < t2 → t2 ≤ 10 →
        (∀ t', t' ∈ terms_rows three_versions → slug t' = DEFAULT_TERMS_SLUG →
               date_active t' ∈ [None; Some t1; Some t2]) →
        (∃ t', t' ∈ terms_rows three_versions ∧ slug t' = DEFAULT_TERMS_SLUG
               ∧ date_active t' = Some t2) →
        date_active t = Some t2.
Proof.
  assert (∃ t, t ∈ terms_rows three_versions ∧ activated 10 DEFAULT_TERMS_SLUG t) as Hex.
  { exists (mk_terms 3 DEFAULT_TERMS_SLUG (Some 8)). split.
    - simpl. do 2 apply list_elem_of_further. apply list_elem_of_here.
    - split; [reflexivity|]. exists 8. split; [reflexivity|lia]. }
  split; [reflexivity|]. split; [exact Hex|].
  apply (get_active_returns_latest three_versions 10 DEFAULT_TERMS_SLUG empty_world);
    [reflexivity|exact Hex].
Defined.

(** The row picked at the sample store is the one activated last. *)
Example get_active_three_versions :
  (get_active (Migrated three_versions) 10 DEFAULT_TERMS_SLUG empty_world).1
  = Ok (PTerms (mk_terms 3 DEFAULT_TERMS_SLUG (Some 8))).
Proof. reflexivity. Qed.

(** C8.  On a cache miss, for a slug none of whose versions has a non-null
    [date_active <= now], [get_active slug] returns [None] and logs one error;
    it neither raises nor returns a row, and it leaves the cache as it was. *)
Theorem get_active_none_logged tb now s w :
  cache_miss (active_terms_key s) w →
  (∀ t, t ∈ terms_rows tb → ¬ activated now s t) →
  get_active (Migrated tb) now s w =
    (Ok PNone,
     {| cache := cache w;
        log := log w ++ [(ERROR, "Requested Terms and Conditions that Have Not Been Created.")] |}).
Proof.
  intros Hmiss Hnone.
  rewrite get_active_on_miss, get_active_lookup_eq by done.
  pose proof (query_active_spec tb now s) as Hq.
  destruct (query_active (Migrated tb) now s) as [t|e].
  - destruct Hq as (Hin & Hact & _). by destruct (Hnone t Hin).
  - by destruct Hq as [-> _].
Qed.

Lemma get_active_none_logged_witness :
  cache_miss (active_terms_key DEFAULT_TERMS_SLUG) empty_world ∧
  (∀ t, t ∈ terms_rows nothing_activated → ¬ activated 10 DEFAULT_TERMS_SLUG t) ∧
  get_active (Migrated nothing_activated) 10 DEFAULT_TERMS_SLUG empty_world =
    (Ok PNone,
     {| cache := cache empty_world;
        log := log empty_world
               ++ [(ERROR, "Requested Terms and Conditions that Have Not Been Created.")] |}).
Proof.
  assert (∀ t, t ∈ terms_rows nothing_activated → ¬ activated 10 DEFAULT_TERMS_SLUG t) as Hno.
  { intros t Hin [_ (d & Hd & Hle)]. simpl in Hin.
    repeat (apply elem_of_cons in Hin as [->|Hin]); simpl in Hd; try discriminate.
    - injection Hd as <-. lia.
    - by apply not_elem_of_nil in Hin. }
  split; [reflexivity|]. split; [exact Hno|].
  apply (get_active_none_logged nothing_activated 10 DEFAULT_TERMS_SLUG empty_world);
    [reflexivity|exact Hno].
Defined.

(** Without the tables the lookup raises whatever the slug. *)
Lemma get_active_unmigrated now s w :
  cache_miss (active_terms_key s) w →
  get_active Unmigrated now s w = (Raise ProgrammingError, w).
Proof. intros Hmiss. by rewrite get_active_on_miss, get_active_lookup_eq. Qed.

(** C3.  Before the first migration, [get_active] on a cold cache ends in
    [ProgrammingError]: it only handles [DoesNotExist].  The sibling
    [get_active_terms_ids] handles the same condition and returns the empty
    list with a warning. *)
Theorem get_active_unmigrated_raises :
  get_active Unmigrated 10 DEFAULT_TERMS_SLUG empty_world
    = (Raise ProgrammingError, empty_world)
  ∧ (get_active_terms_ids Unmigrated 10 empty_world).1 = Ok (PIds []).
Proof. split; reflexivity. Qed.

(** On SQLite the report is [OperationalError]; [get_active] lets it through
    as well, and here so does [get_active_terms_ids], whose handler names
    [ProgrammingError] only. *)
Example get_active_unmigrated_sqlite :
  get_active UnmigratedSQLite 10 DEFAULT_TERMS_SLUG empty_world
    = (Raise OperationalError, empty_world)
  ∧ get_active_terms_ids UnmigratedSQLite 10 empty_world
    = (Raise OperationalError, empty_world).
Proof. split; reflexivity. Qed.

(** ** The acceptance checks *)

Lemma get_active_raises db now s w e :
  (get_active db now s w).1 = Raise e →
  e = ProgrammingError ∨ e = OperationalError.
Proof.
  destruct (truthy (cached (active_terms_key s) w)) eqn:Hc.
  - by rewrite get_active_hit.
  - rewrite get_active_on_miss, get_active_lookup_eq by done.
    destruct db as [| |tb].
    + intros [= <-]. by left.
    + intros [= <-]. by right.
    + pose proof (query_active_spec tb now s) as Hq.
      destruct (query_active (Migrated tb) now s) as [t|e']; [done|].
      by destruct Hq as [-> _].
Qed.

Lemma get_active_migrated tb now s w :
  ∃ v, (get_active (Migrated tb) now s w).1 = Ok v.
Proof.
  destruct (truthy (cached (active_terms_key s) w)) eqn:Hc.
  - rewrite get_active_hit by done. by eexists.
  - rewrite get_active_on_miss, get_active_lookup_eq by done.
    pose proof (query_active_spec tb now s) as Hq.
    destruct (query_active (Migrated tb) now s) as [t|e']; [by eexists|].
    destruct Hq as [-> _]. by eexists.
Qed.

Lemma agreed_to_terms_eq sub db usr tm w :
  agreed_to_terms sub db usr tm w =
  (match userterms_get sub db usr tm with
   | Ok _ => Ok true
   | Raise DoesNotExist | Raise TypeError => Ok false
   | Raise e => Raise e
   end, w).
Proof.
  unfold agreed_to_terms, try_except, mbind, M_bind, orm.
  destruct (userterms_get sub db usr tm) as [r|[]]; reflexivity.
Qed.

Lemma agreed_to_latest_try_eq sub db now usr s w :
  agreed_to_latest_try sub db now usr s w =
  match get_active db now s w with
  | (Ok v, w') =>
      (match userterms_get sub db usr v with Ok _ => Ok true | Raise e => Raise e end, w')
  | (Raise e, w') => (Raise e, w')
  end.
Proof.
  unfold agreed_to_latest_try, mbind, M_bind, orm.
  destruct (get_active db now s w) as [[v|e] w']; [|done].
  by destruct (userterms_get sub db usr v).
Qed.

Lemma agreed_to_latest_eq sub db now usr s w :
  agreed_to_latest sub db now usr s w =
  match get_active db now s w with
  | (Ok v, w') =>
      (match userterms_get sub db usr v with
       | Ok _ | Raise MultipleObjectsReturned => Ok true
       | Raise DoesNotExist | Raise TypeError => Ok false
       | Raise e => Raise e
       end, w')
  | (Raise e, w') => (Raise e, w')
  end.
Proof.
  unfold agreed_to_latest, try_except. rewrite agreed_to_latest_try_eq.
  destruct (get_active db now s w) as [[v|e] w'] eqn:Hg.
  - by destruct (userterms_get sub db usr v) as [r|[]].
  - destruct (get_active_raises db now s w e) as [-> | ->]; [by rewrite Hg|done..].
Qed.

Lemma get_one_spec {A} (rows : list A) :
  match get_one rows with
  | Ok r => rows = [r]
  | Raise e =>
      (e = DoesNotExist ∧ rows = []) ∨
      (e = MultipleObjectsReturned ∧ (2 ≤ length rows)%nat)
  end.
Proof. destruct rows as [|a [|b rows]]; simpl; [by left|done|right]. split; [done|lia]. Qed.

(** What the [get()] of rows selected by a decidable condition answers. *)
Lemma get_one_filter {A} (P : A → Prop) `{∀ x, Decision (P x)} (rows : list A) :
  match get_one (filter P rows) with
  | Ok _ | Raise MultipleObjectsReturned => Exists P rows
  | Raise DoesNotExist => ¬ Exists P rows
  | Raise _ => False
  end.
Proof.
  pose proof (get_one_spec (filter P rows)) as Hs.
  assert (Exists P rows ↔ filter P rows ≠ []) as Hex.
  { rewrite Exists_exists. split.
    - intros (r & Hin & Hr) Hnil.
      assert (r ∈ filter P rows) as Hf by (by apply list_elem_of_filter).
      rewrite Hnil in Hf. by apply not_elem_of_nil in Hf.
    - intros Hne. destruct (filter P rows) as [|r l] eqn:Hf; [done|].
      assert (r ∈ filter P rows) as Hin by (rewrite Hf; apply list_elem_of_here).
      apply list_elem_of_filter in Hin as [? ?]. by exists r. }
  destruct (get_one (filter P rows)) as [r|e].
  - apply Hex. by rewrite Hs.
  - destruct Hs as [[-> Hnil]|[-> Hlen]].
    + rewrite Hex. by intros Hne.
    + apply Hex. intros Hnil. rewrite Hnil in Hlen. simpl in Hlen. lia.
Qed.

(** What the [get()] of an acceptance row answers on a migrated database. *)
Lemma userterms_get_spec sub tb usr v :
  match userterms_get sub (Migrated tb) usr v with
  | Ok _ | Raise MultipleObjectsReturned => accepted_value sub tb usr v
  | Raise DoesNotExist | Raise TypeError => ¬ accepted_value sub tb usr v
  | Raise _ => False
  end.
Proof.
  destruct v as [|t|ids|rows|]; simpl; try (by intros []).
  - pose proof (get_one_filter (accepted_by usr t) (userterms_rows tb)) as H.
    by destruct (get_one _) as [r|[]].
  - destruct (sub tb (PQuerySet rows)) as [k|]; [|by intros []].
    pose proof (get_one_filter (accepted_key usr k) (userterms_rows tb)) as H.
    by destruct (get_one _) as [r|[]].
  - destruct (sub tb PLazyQuerySet) as [k|]; [|by intros []].
    pose proof (get_one_filter (accepted_key usr k) (userterms_rows tb)) as H.
    by destruct (get_one _) as [r|[]].
Qed.

Lemma filter_unique_key {A B} (f : A → B) (P : A → Prop) `{∀ x, Decision (P x)}
    (c : B) (l : list A) :
  NoDup (f <$> l) → (∀ x, P x → f x = c) → (length (filter P l) ≤ 1)%nat.
Proof.
  intros Hnd Hkey. induction l as [|x l IH]; simpl; [lia|].
  rewrite fmap_cons in Hnd. apply NoDup_cons in Hnd as [Hx Hnd].
  rewrite filter_cons. destruct (decide (P x)) as [HPx|_]; [|by apply IH].
  assert (filter P l = []) as ->; [|simpl; lia].
  apply elem_of_nil_inv. intros y [HPy Hy]%list_elem_of_filter.
  apply Hx. apply list_elem_of_fmap. exists y. split; [|done].
  by rewrite (Hkey x HPx), (Hkey y HPy).
Qed.

Lemma get_one_key_unique tb usr k :
  unique_together tb →
  get_one (filter (accepted_key usr k) (userterms_rows tb)) ≠ Raise MultipleObjectsReturned.
Proof.
  intros Hu.
  pose proof (get_one_spec (filter (accepted_key usr k) (userterms_rows tb))) as H.
  destruct (get_one _) as [r|e]; [done|].
  destruct H as [[-> _]|[-> Hlen]]; [done|].
  pose proof (filter_unique_key (λ r, (user r, terms r)) (accepted_key usr k)
                (usr, k) (userterms_rows tb) Hu) as Hle.
  assert ((length (filter (accepted_key usr k) (userterms_rows tb)) ≤ 1)%nat); [|lia].
  apply Hle. by intros x [-> ->].
Qed.

Lemma userterms_get_unique sub tb usr v :
  unique_together tb →
  userterms_get sub (Migrated tb) usr v ≠ Raise MultipleObjectsReturned.
Proof.
  intros Hu. destruct v as [|t|ids|rows|]; simpl; try done.
  - apply (get_one_key_unique tb usr (pk t) Hu).
  - destruct (sub tb (PQuerySet rows)) as [k|]; [|done].
    apply (get_one_key_unique tb usr k Hu).
  - destruct (sub tb PLazyQuerySet) as [k|]; [|done].
    apply (get_one_key_unique tb usr k Hu).
Qed.

(** C4.  [agreed_to_latest user slug] leaves the cache and the log as
    [agreed_to_terms user (get_active slug)] does and returns the same result,
    except that where the latter would surface [MultipleObjectsReturned] the
    former answers true.  On a migrated database its answer is true exactly
    when an acceptance row exists for the user and the value of
    [get_active slug]; on a cache miss for the slug that value is the slug's
    active version, so the answer is true exactly when the user has an
    acceptance row, or several, for the active version, and it is false when
    the slug has no active version. *)
Theorem agreed_to_latest_equiv :
  (∀ sub db now usr s w,
     (agreed_to_latest sub db now usr s w).2
       = (agreed_to_terms_of_active sub db now usr s w).2 ∧
     (agreed_to_latest sub db now usr s w).1 =
       match (agreed_to_terms_of_active sub db now usr s w).1 with
       | Raise MultipleObjectsReturned => Ok true
       | r => r
       end)
  ∧ (∀ sub tb now usr s w, ∃ v,
       (get_active (Migrated tb) now s w).1 = Ok v ∧
       (agreed_to_latest sub (Migrated tb) now usr s w).1
         = Ok (bool_decide (accepted_value sub tb usr v)))
  ∧ (∀ sub tb now usr s w,
       cache_miss (active_terms_key s) w →
       ((∃ t, t ∈ terms_rows tb ∧ activated now s t) →
        ∃ t, is_active_version tb now s t
             ∧ (get_active (Migrated tb) now s w).1 = Ok (PTerms t)
             ∧ (agreed_to_latest sub (Migrated tb) now usr s w).1
               = Ok (bool_decide (has_accepted tb usr t)))
       ∧ ((∀ t, t ∈ terms_rows tb → ¬ activated now s t) →
          (agreed_to_latest sub (Migrated tb) now usr s w).1 = Ok false)).
Proof.
  assert (∀ sub tb now usr s w, ∃ v,
       (get_active (Migrated tb) now s w).1 = Ok v ∧
       (agreed_to_latest sub (Migrated tb) now usr s w).1
         = Ok (bool_decide (accepted_value sub tb usr v))) as Hvalue.
  { intros sub tb now usr s w.
    destruct (get_active_migrated tb now s w) as [v Hv]. exists v. split; [done|].
    rewrite agreed_to_latest_eq.
    destruct (get_active (Migrated tb) now s w) as [r w']. simpl in Hv. subst r. simpl.
    pose proof (userterms_get_spec sub tb usr v) as Hs.
    destruct (userterms_get sub (Migrated tb) usr v) as [r|[]]; try done;
      f_equal; symmetry;
      first [by apply bool_decide_eq_true | by apply bool_decide_eq_false]. }
  split; [|split; [exact Hvalue|]].
  - intros sub db now usr s w. rewrite agreed_to_latest_eq.
    unfold agreed_to_terms_of_active, mbind, M_bind.
    destruct (get_active db now s w) as [[v|e] w'] eqn:Hg.
    + rewrite agreed_to_terms_eq. simpl.
      by destruct (userterms_get sub db usr v) as [r|[]].
    + destruct (get_active_raises db now s w e) as [-> | ->]; [by rewrite Hg|done..].
  - intros sub tb now usr s w Hmiss.
    destruct (Hvalue sub tb now usr s w) as (v & Hv & Hans).
    rewrite get_active_on_miss, get_active_lookup_eq in Hv by done.
    pose proof (query_active_spec tb now s) as Hq.
    destruct (query_active (Migrated tb) now s) as [t|e] eqn:Hqa.
    + simpl in Hv. injection Hv as <-. split.
      * intros _. exists t. split; [done|].
        rewrite get_active_on_miss, get_active_lookup_eq, Hqa by done. by split.
      * intros Hnone. destruct Hq as (Hin & Hact & _). by destruct (Hnone t Hin).
    + destruct Hq as [-> Hnone]. simpl in Hv. injection Hv as <-. split.
      * intros (t & Hin & Hact). by destruct (Hnone t Hin).
      * intros _. rewrite Hans. by rewrite bool_decide_eq_false_2 by (by intros []).
Qed.

Lemma agreed_to_latest_equiv_witness :
  cache_miss (active_terms_key DEFAULT_TERMS_SLUG) empty_world
  ∧ (∃ t, t ∈ terms_rows accepted_once ∧ activated 10 DEFAULT_TERMS_SLUG t)
  ∧ (∃ t, is_active_version accepted_once 10 DEFAULT_TERMS_SLUG t
          ∧ (get_active (Migrated accepted_once) 10 DEFAULT_TERMS_SLUG empty_world).1
            = Ok (PTerms t)
          ∧ (agreed_to_latest first_row_key (Migrated accepted_once) 10 7
               DEFAULT_TERMS_SLUG empty_world).1
            = Ok (bool_decide (has_accepted accepted_once 7 t)))
  ∧ (∀ t, t ∈ terms_rows nothing_activated → ¬ activated 10 DEFAULT_TERMS_SLUG t)
  ∧ (agreed_to_latest first_row_key (Migrated nothing_activated) 10 7
       DEFAULT_TERMS_SLUG empty_world).1 = Ok false.
Proof.
  assert (∃ t, t ∈ terms_rows accepted_once ∧ activated 10 DEFAULT_TERMS_SLUG t) as Hex.
  { exists (mk_terms 3 DEFAULT_TERMS_SLUG (Some 8)). split.
    - simpl. do 2 apply list_elem_of_further. apply list_elem_of_here.
    - split; [reflexivity|]. exists 8. split; [reflexivity|lia]. }
  assert (∀ t, t ∈ terms_rows nothing_activated → ¬ activated 10 DEFAULT_TERMS_SLUG t) as Hno.
  { intros t Hin [_ (d & Hd & Hle)]. simpl in Hin.
    apply elem_of_cons in Hin as [->|Hin]; [discriminate|].
    apply list_elem_of_singleton in Hin as ->. injection Hd as <-. lia. }
  split; [reflexivity|]. split; [exact Hex|].
  split.
  - exact (proj1 (proj2 (proj2 agreed_to_latest_equiv) first_row_key accepted_once 10 7
                    DEFAULT_TERMS_SLUG empty_world eq_refl) Hex).
  - split; [exact Hno|].
    exact (proj2 (proj2 (proj2 agreed_to_latest_equiv) first_row_key nothing_activated 10 7
                    DEFAULT_TERMS_SLUG empty_world eq_refl) Hno).
Defined.

(** User 7 accepted the active version and user 9 did not. *)
Example agreed_to_latest_accepted_once :
  (agreed_to_latest first_row_key (Migrated accepted_once) 10 7 DEFAULT_TERMS_SLUG
     empty_world).1 = Ok true
  ∧ (agreed_to_latest first_row_key (Migrated accepted_once) 10 9 DEFAULT_TERMS_SLUG
       empty_world).1 = Ok false.
Proof. split; reflexivity. Qed.

(** Under the uniqueness constraint the two agree outright. *)
Lemma agreed_to_latest_eq_unique sub tb now usr s w :
  unique_together tb →
  agreed_to_latest sub (Migrated tb) now usr s w
    = agreed_to_terms_of_active sub (Migrated tb) now usr s w.
Proof.
  intros Hu. rewrite agreed_to_latest_eq.
  unfold agreed_to_terms_of_active, mbind, M_bind.
  destruct (get_active (Migrated tb) now s w) as [[v|e] w'] eqn:Hg.
  - rewrite agreed_to_terms_eq.
    pose proof (userterms_get_unique sub tb usr v Hu) as Hne.
    by destruct (userterms_get sub (Migrated tb) usr v) as [r|[]].
  - destruct (get_active_raises (Migrated tb) now s w e) as [-> | ->];
      [by rewrite Hg|done..].
Qed.

(** The duplicate is where the two differ. *)
Example agreed_to_latest_duplicate :
  (agreed_to_latest first_row_key (Migrated accepted_twice) 10 8 DEFAULT_TERMS_SLUG
     empty_world).1 = Ok true
  ∧ (agreed_to_terms_of_active first_row_key (Migrated accepted_twice) 10 8
       DEFAULT_TERMS_SLUG empty_world).1
    = Raise MultipleObjectsReturned.
Proof. split; reflexivity. Qed.

(** A query set under the key of the slug "list": [get_active "list"] hands it
    to the [get()], which compares with its sub-select; with the sub-select
    yielding the key of the first fetched row, user 7, who accepted that
    version, is answered true. *)
Example agreed_to_latest_query_set :
  let w' := (get_active_terms_list (Migrated accepted_once) 10 empty_world).2 in
  (get_active (Migrated accepted_once) 10 "list" w').1
    = Ok (PQuerySet [mk_terms 3 DEFAULT_TERMS_SLUG (Some 8)])
  ∧ (agreed_to_latest first_row_key (Migrated accepted_once) 10 7 "list" w').1 = Ok true.
Proof. split; vm_compute; reflexivity. Qed.

(** C7.  On a migrated database [agreed_to_terms user None] returns false, for
    every user and whatever the acceptance table holds, without raising and
    without touching the cache or the log. *)
Theorem agreed_to_terms_none sub tb usr w :
  agreed_to_terms sub (Migrated tb) usr PNone w = (Ok false, w).
Proof. by rewrite agreed_to_terms_eq. Qed.

(** C9.  Under the uniqueness constraint on (user, terms) the [try] block of
    [agreed_to_latest] never ends in [MultipleObjectsReturned], so that handler
    is not entered, and [agreed_to_latest] and [agreed_to_terms] both end with a
    boolean. *)
Theorem unique_together_no_multiple sub tb now usr s tm w :
  unique_together tb →
  (agreed_to_latest_try sub (Migrated tb) now usr s w).1 ≠ Raise MultipleObjectsReturned
  ∧ (∃ b, (agreed_to_latest sub (Migrated tb) now usr s w).1 = Ok b)
  ∧ (agreed_to_terms sub (Migrated tb) usr tm w).1 ≠ Raise MultipleObjectsReturned
  ∧ (∃ b, (agreed_to_terms sub (Migrated tb) usr tm w).1 = Ok b).
Proof.
  intros Hu.
  assert (∀ v, ∃ b,
    match userterms_get sub (Migrated tb) usr v with
    | Ok _ => Ok true
    | Raise DoesNotExist | Raise TypeError => Ok false
    | Raise e => Raise e
    end = Ok b) as Hbool.
  { intros v. pose proof (userterms_get_unique sub tb usr v Hu) as Hne.
    pose proof (userterms_get_spec sub tb usr v) as Hs.
    destruct (userterms_get sub (Migrated tb) usr v) as [r|[]]; try done; by eexists. }
  rewrite agreed_to_latest_try_eq, agreed_to_latest_eq, agreed_to_terms_eq.
  destruct (get_active_migrated tb now s w) as [v Hv].
  destruct (get_active (Migrated tb) now s w) as [r w']. simpl in Hv. subst r. simpl.
  pose proof (userterms_get_unique sub tb usr v Hu) as Hne.
  pose proof (userterms_get_unique sub tb usr tm Hu) as Hne'.
  split; [by destruct (userterms_get sub (Migrated tb) usr v) as [r|e]; [|congruence]|].
  split.
  - destruct (Hbool v) as [b Hb]. exists b.
    by destruct (userterms_get sub (Migrated tb) usr v) as [r|[]].
  - split; [|apply Hbool].
    by destruct (userterms_get sub (Migrated tb) usr tm) as [r|[]].
Qed.

Lemma unique_together_no_multiple_witness :
  unique_together accepted_once ∧
  (agreed_to_latest_try first_row_key (Migrated accepted_once) 10 7 DEFAULT_TERMS_SLUG
     empty_world).1
    ≠ Raise MultipleObjectsReturned
  ∧ (∃ b, (agreed_to_latest first_row_key (Migrated accepted_once) 10 7 DEFAULT_TERMS_SLUG
             empty_world).1
          = Ok b)
  ∧ (agreed_to_terms first_row_key (Migrated accepted_once) 7
       (PTerms (mk_terms 3 DEFAULT_TERMS_SLUG (Some 8))) empty_world).1
    ≠ Raise MultipleObjectsReturned
  ∧ (∃ b, (agreed_to_terms first_row_key (Migrated accepted_once) 7
             (PTerms (mk_terms 3 DEFAULT_TERMS_SLUG (Some 8))) empty_world).1 = Ok b).
Proof.
  assert (unique_together accepted_once) as Hu.
  { apply (bool_decide_unpack _). vm_compute. exact I. }
  split; [exact Hu|].
  apply (unique_together_no_multiple first_row_key accepted_once 10 7 DEFAULT_TERMS_SLUG
           (PTerms (mk_terms 3 DEFAULT_TERMS_SLUG (Some 8))) empty_world Hu).
Defined.

(** Without the constraint the [get()] does raise, and only [agreed_to_latest]
    handles it. *)
Example duplicate_rows_reach_the_handler :
  ¬ unique_together accepted_twice
  ∧ (agreed_to_latest_try first_row_key (Migrated accepted_twice) 10 8 DEFAULT_TERMS_SLUG
       empty_world).1
    = Raise MultipleObjectsReturned
  ∧ (agreed_to_terms first_row_key (Migrated accepted_twice) 8
       (PTerms (mk_terms 3 DEFAULT_TERMS_SLUG (Some 8))) empty_world).1
    = Raise MultipleObjectsReturned.
Proof.
  split; [|split; reflexivity].
  apply (bool_decide_unpack _). vm_compute. exact I.
Qed.

(** ** [get_active_terms_ids] *)

Lemma cached_insert_eq k v c l :
  cached k {| cache := <[k := v]> c; log := l |} = v.
Proof. unfold cached; simpl. by rewrite lookup_insert_eq. Qed.

Lemma cached_insert_ne k k' v c l :
  k' ≠ k → cached k {| cache := <[k' := v]> c; log := l |} = default PNone (c !! k).
Proof. intros Hne. unfold cached; simpl. by rewrite lookup_insert_ne. Qed.

Lemma get_active_terms_ids_hit db now w :
  truthy (cached active_terms_ids_key w) = true →
  get_active_terms_ids db now w = (Ok (cached active_terms_ids_key w), w).
Proof. intros H. unfold get_active_terms_ids, mbind, M_bind, cache_get. by rewrite H. Qed.

Lemma get_active_terms_ids_on_miss db now w :
  cache_miss active_terms_ids_key w →
  get_active_terms_ids db now w = get_active_terms_ids_lookup db now w.
Proof. intros H. unfold get_active_terms_ids, mbind, M_bind, cache_get. by rewrite H. Qed.

Lemma get_active_terms_ids_lookup_eq db now w :
  get_active_terms_ids_lookup db now w =
  match db with
  | Migrated tb =>
      let ids := PIds (pk <$> omap (group_max (filter (λ t, raw_where now t) (terms_rows tb)))
                                   (group_slugs (filter (λ t, raw_where now t) (terms_rows tb)))) in
      (Ok ids, {| cache := <[active_terms_ids_key := ids]> (cache w); log := log w |})
  | Unmigrated =>
      (Ok (PIds []),
       {| cache := cache w;
          log := log w ++ [(WARNING, "Unable to find active terms ids because terms and conditions tables not initialized.")] |})
  | UnmigratedSQLite => (Raise OperationalError, w)
  end.
Proof. by destruct db. Qed.

(** The helper writes no key but its own, and the one exception it can end in
    is the [OperationalError] of SQLite, which its handler does not name; the
    state is then as it was. *)
Lemma get_active_terms_ids_returns db now w :
  (∃ v w', get_active_terms_ids db now w = (Ok v, w') ∧
           ∀ k, k ≠ active_terms_ids_key → cached k w' = cached k w)
  ∨ get_active_terms_ids db now w = (Raise OperationalError, w).
Proof.
  destruct (truthy (cached active_terms_ids_key w)) eqn:Hc.
  - rewrite get_active_terms_ids_hit by done. left. by eexists _, _.
  - rewrite get_active_terms_ids_on_miss, get_active_terms_ids_lookup_eq by done.
    destruct db as [| |tb]; [left|by right|left];
      eexists _, _; (split; [reflexivity|]); intros k Hk.
    + done.
    + by rewrite cached_insert_ne.
Qed.

(** ** [get_active_terms_not_agreed_to] *)

Lemma not_agreed_hit db now usr w :
  truthy (cached not_agreed_terms_key w) = true →
  get_active_terms_not_agreed_to db now usr w = (Ok (cached not_agreed_terms_key w), w).
Proof.
  intros H. unfold get_active_terms_not_agreed_to, mbind, M_bind, cache_get. by rewrite H.
Qed.

Lemma not_agreed_on_miss db now usr w :
  cache_miss not_agreed_terms_key w →
  get_active_terms_not_agreed_to db now usr w
    = get_active_terms_not_agreed_to_lookup db now usr w.
Proof.
  intros H. unfold get_active_terms_not_agreed_to, mbind, M_bind, cache_get. by rewrite H.
Qed.

Lemma not_agreed_lookup_eq db now usr w :
  get_active_terms_not_agreed_to_lookup db now usr w =
  match get_active_terms_ids db now w with
  | (Ok v, w1) =>
      match as_id_list v with
      | Ok ids =>
          match not_agreed_query db ids usr with
          | Ok rows =>
              (Ok (PQuerySet rows),
               {| cache := <[not_agreed_terms_key := PQuerySet rows]> (cache w1);
                  log := log w1 |})
          | Raise TypeError | Raise DoesNotExist => (Ok PNone, w1)
          | Raise e => (Raise e, w1)
          end
      | Raise TypeError | Raise DoesNotExist => (Ok PNone, w1)
      | Raise e => (Raise e, w1)
      end
  | (Raise TypeError, w1) | (Raise DoesNotExist, w1) => (Ok PNone, w1)
  | (Raise e, w1) => (Raise e, w1)
  end.
Proof.
  unfold get_active_terms_not_agreed_to_lookup, try_except, mbind, M_bind, orm.
  destruct (get_active_terms_ids db now w) as [[v|[]] w1]; try reflexivity.
  destruct (as_id_list v) as [ids|[]]; try reflexivity.
  destruct (not_agreed_query db ids usr) as [rows|[]]; reflexivity.
Qed.

(** A true value that the helper returns is the value under its key afterwards. *)
Lemma not_agreed_returned_is_cached db now usr w v w' :
  get_active_terms_not_agreed_to db now usr w = (Ok v, w') →
  truthy v = true →
  cached not_agreed_terms_key w' = v.
Proof.
  intros Hrun Hv.
  destruct (truthy (cached not_agreed_terms_key w)) eqn:Hc.
  - rewrite not_agreed_hit in Hrun by done. by injection Hrun as <- <-.
  - rewrite not_agreed_on_miss, not_agreed_lookup_eq in Hrun by done.
    destruct (get_active_terms_ids db now w) as [[v0|[]] w1];
      try (injection Hrun as <- <-; discriminate); try discriminate.
    destruct (as_id_list v0) as [ids|[]];
      try (injection Hrun as <- <-; discriminate); try discriminate.
    destruct (not_agreed_query db ids usr) as [rows|[]];
      try (injection Hrun as <- <-; discriminate); try discriminate.
    injection Hrun as <- <-. apply cached_insert_eq.
Qed.

(** C6.  The key under which [get_active_terms_not_agreed_to] caches does not
    mention the user: once a call for a user [a] has returned a non-empty
    result, a call for any user [b], on any store and at any time, returns that
    same result from the cache and leaves the state as it was. *)
Theorem not_agreed_cache_ignores_user db now a w v w' :
  get_active_terms_not_agreed_to db now a w = (Ok v, w') →
  truthy v = true →
  ∀ db' now' b, get_active_terms_not_agreed_to db' now' b w' = (Ok v, w').
Proof.
  intros Hrun Hv db' now' b.
  pose proof (not_agreed_returned_is_cached db now a w v w' Hrun Hv) as Hc.
  rewrite not_agreed_hit by (by rewrite Hc). by rewrite Hc.
Qed.

Lemma not_agreed_cache_ignores_user_witness :
  let rows := [mk_terms 2 "privacy" (Some 6); mk_terms 3 DEFAULT_TERMS_SLUG (Some 4)] in
  let w' := (get_active_terms_not_agreed_to (Migrated two_slugs) 10 8 empty_world).2 in
  get_active_terms_not_agreed_to (Migrated two_slugs) 10 8 empty_world = (Ok (PQuerySet rows), w')
  ∧ truthy (PQuerySet rows) = true
  ∧ ∀ db' now' b, get_active_terms_not_agreed_to db' now' b w' = (Ok (PQuerySet rows), w').
Proof.
  intros rows w'.
  assert (get_active_terms_not_agreed_to (Migrated two_slugs) 10 8 empty_world
          = (Ok (PQuerySet rows), w')) as Hrun by (vm_compute; reflexivity).
  split; [exact Hrun|]. split; [reflexivity|].
  exact (not_agreed_cache_ignores_user (Migrated two_slugs) 10 8 empty_world
           (PQuerySet rows) w' Hrun eq_refl).
Defined.

(** User 7 on a cold cache is told of one version; after a call for user 8
    the same question is answered with the two versions of user 8. *)
Example not_agreed_stale_for_other_user :
  (get_active_terms_not_agreed_to (Migrated two_slugs) 10 7 empty_world).1
    = Ok (PQuerySet [mk_terms 3 DEFAULT_TERMS_SLUG (Some 4)])
  ∧ (get_active_terms_not_agreed_to (Migrated two_slugs) 10 7
       (get_active_terms_not_agreed_to (Migrated two_slugs) 10 8 empty_world).2).1
    = Ok (PQuerySet [mk_terms 2 "privacy" (Some 6); mk_terms 3 DEFAULT_TERMS_SLUG (Some 4)]).
Proof. split; vm_compute; reflexivity. Qed.

(** ** Ordering by slug *)

Lemma order_by_slug_sorted rows : Sorted slug_le (order_by_slug rows).
Proof. apply (Sorted_merge_sort slug_le). Qed.

Lemma order_by_slug_perm rows : order_by_slug rows ≡ₚ rows.
Proof. apply (merge_sort_Permutation slug_le). Qed.

(** ** The set difference of [get_active_terms_not_agreed_to] *)

Lemma NoDup_fmap_eq {A B} (f : A → B) (l : list A) x y :
  NoDup (f <$> l) → x ∈ l → y ∈ l → f x = f y → x = y.
Proof.
  induction l as [|a l IH]; intros Hnd Hx Hy Hf; [by apply not_elem_of_nil in Hx|].
  rewrite fmap_cons in Hnd. apply NoDup_cons in Hnd as [Ha Hnd].
  apply elem_of_cons in Hx as [->|Hx]; apply elem_of_cons in Hy as [->|Hy].
  - done.
  - destruct Ha. rewrite Hf. by apply list_elem_of_fmap_2.
  - destruct Ha. rewrite <- Hf. by apply list_elem_of_fmap_2.
  - by apply IH.
Qed.

(** With unique primary keys, the sub-query on acceptance keys selects the
    versions the user accepted. *)
Lemma userterms_in_has_accepted tb usr t :
  NoDup (ut_pk <$> userterms_rows tb) →
  userterms_in tb (userterms_ids_of tb usr) t ↔ has_accepted tb usr t.
Proof.
  intros Hnd. unfold userterms_in, has_accepted, userterms_ids_of, accepted_by.
  rewrite !Exists_exists. split.
  - intros (r & Hin & Hterms & Hid). exists r. split; [done|]. split; [|done].
    apply list_elem_of_fmap in Hid as (r' & Hpk & Hr').
    apply list_elem_of_filter in Hr' as [Husr Hin'].
    by rewrite (NoDup_fmap_eq ut_pk _ r r' Hnd Hin Hin' Hpk).
  - intros (r & Hin & Husr & Hterms). exists r. split; [done|]. split; [done|].
    apply list_elem_of_fmap_2. by apply list_elem_of_filter.
Qed.

Lemma filter_only {A} (P : A → Prop) `{∀ x, Decision (P x)} (l : list A) b :
  NoDup l → b ∈ l → (∀ x, x ∈ l → P x ↔ x = b) → filter P l = [b].
Proof.
  induction l as [|a l IH]; intros Hnd Hb HP; [by apply not_elem_of_nil in Hb|].
  apply NoDup_cons in Hnd as [Ha Hnd]. rewrite filter_cons.
  destruct (decide (P a)) as [HPa|HPa].
  - apply HP in HPa as ->; [|apply list_elem_of_here]. f_equal.
    apply elem_of_nil_inv. intros y [HPy Hy]%list_elem_of_filter.
    apply HP in HPy as ->; [done|by apply list_elem_of_further].
  - apply elem_of_cons in Hb as [->|Hb].
    { destruct HPa. apply HP; [apply list_elem_of_here|done]. }
    apply IH; [done..|]. intros x Hx. apply HP. by apply list_elem_of_further.
Qed.

Lemma not_agreed_query_spec tb ids usr :
  NoDup (ut_pk <$> userterms_rows tb) →
  ∃ rows, not_agreed_query (Migrated tb) ids usr = Ok rows
    ∧ Sorted slug_le rows
    ∧ rows ≡ₚ filter (λ t, pk t ∈ ids ∧ ¬ has_accepted tb usr t) (terms_rows tb).
Proof.
  intros Hnd. destruct ids as [|i ids]; simpl.
  - exists []. split; [done|]. split; [constructor|].
    match goal with |- _ ≡ₚ ?l => assert (l = []) as ->; [|done] end.
    apply elem_of_nil_inv. intros t [[Hin _] _]%list_elem_of_filter.
    by apply not_elem_of_nil in Hin.
  - eexists. split; [reflexivity|]. split; [apply order_by_slug_sorted|].
    rewrite order_by_slug_perm.
    erewrite list_filter_iff; [reflexivity|].
    intros t. simpl. by rewrite userterms_in_has_accepted.
Qed.

(** C5.  On a cache miss for its key, with [ids] the list that
    [get_active_terms_ids] returns in the same state,
    [get_active_terms_not_agreed_to user] returns, ordered by slug, exactly the
    rows whose key is in [ids] and for which the user has no acceptance row,
    and caches them; with two active versions [ta] and [tb'] of which the user
    accepted only [ta], the result is the one-element list [[tb']]. *)
Theorem not_agreed_is_active_minus_accepted tb now usr w ids w1 :
  primary_keys tb →
  cache_miss not_agreed_terms_key w →
  get_active_terms_ids (Migrated tb) now w = (Ok (PIds ids), w1) →
  ∃ rows,
    get_active_terms_not_agreed_to (Migrated tb) now usr w =
      (Ok (PQuerySet rows),
       {| cache := <[not_agreed_terms_key := PQuerySet rows]> (cache w1); log := log w1 |})
    ∧ Sorted slug_le rows
    ∧ rows ≡ₚ filter (λ t, pk t ∈ ids ∧ ¬ has_accepted tb usr t) (terms_rows tb)
    ∧ ∀ ta tb', ids = [pk ta; pk tb'] →
        ta ∈ terms_rows tb → tb' ∈ terms_rows tb →
        has_accepted tb usr ta → ¬ has_accepted tb usr tb' →
        rows = [tb'].
Proof.
  intros [Hpk Hupk] Hmiss Hids.
  destruct (not_agreed_query_spec tb ids usr Hupk) as (rows & Hq & Hsorted & Hperm).
  exists rows. rewrite not_agreed_on_miss, not_agreed_lookup_eq, Hids by done.
  simpl as_id_list. cbv iota. rewrite Hq.
  split; [done|]. split; [done|]. split; [done|].
  intros ta tb' -> Hina Hinb Hacca Haccb.
  apply Permutation_singleton_r. rewrite Hperm.
  rewrite (filter_only _ (terms_rows tb) tb'); [done|by eapply NoDup_fmap_1|done|].
  intros t Hin. split.
  - intros [Hid Hnacc].
    apply elem_of_cons in Hid as [Hid|Hid].
    + by rewrite (NoDup_fmap_eq pk _ t ta Hpk Hin Hina Hid) in Hnacc.
    + apply list_elem_of_singleton in Hid.
      by apply (NoDup_fmap_eq pk _ t tb' Hpk Hin Hinb).
  - intros ->. split; [|done]. apply list_elem_of_further, list_elem_of_here.
Qed.

Lemma not_agreed_is_active_minus_accepted_witness :
  let w1 := (get_active_terms_ids (Migrated two_slugs) 10 empty_world).2 in
  primary_keys two_slugs ∧
  cache_miss not_agreed_terms_key empty_world ∧
  get_active_terms_ids (Migrated two_slugs) 10 empty_world = (Ok (PIds [2; 3]), w1) ∧
  ∃ rows,
    get_active_terms_not_agreed_to (Migrated two_slugs) 10 7 empty_world =
      (Ok (PQuerySet rows),
       {| cache := <[not_agreed_terms_key := PQuerySet rows]> (cache w1); log := log w1 |})
    ∧ Sorted slug_le rows
    ∧ rows ≡ₚ filter (λ t, pk t ∈ [2; 3] ∧ ¬ has_accepted two_slugs 7 t)
                     (terms_rows two_slugs)
    ∧ ∀ ta tb', [2; 3] = [pk ta; pk tb'] →
        ta ∈ terms_rows two_slugs → tb' ∈ terms_rows two_slugs →
        has_accepted two_slugs 7 ta → ¬ has_accepted two_slugs 7 tb' →
        rows = [tb'].
Proof.
  intros w1.
  assert (primary_keys two_slugs) as Hpk.
  { split; apply (bool_decide_unpack _); vm_compute; exact I. }
  assert (get_active_terms_ids (Migrated two_slugs) 10 empty_world = (Ok (PIds [2; 3]), w1))
    as Hids by (vm_compute; reflexivity).
  split; [exact Hpk|]. split; [reflexivity|]. split; [exact Hids|].
  exact (not_agreed_is_active_minus_accepted two_slugs 10 7 empty_world [2; 3] w1
           Hpk eq_refl Hids).
Defined.

(** Two active slugs, one accepted: the other one is returned. *)
Example not_agreed_two_slugs :
  (get_active_terms_ids (Migrated two_slugs) 10 empty_world).1 = Ok (PIds [2; 3])
  ∧ has_accepted two_slugs 7 (mk_terms 2 "privacy" (Some 6))
  ∧ ¬ has_accepted two_slugs 7 (mk_terms 3 DEFAULT_TERMS_SLUG (Some 4))
  ∧ (get_active_terms_not_agreed_to (Migrated two_slugs) 10 7 empty_world).1
    = Ok (PQuerySet [mk_terms 3 DEFAULT_TERMS_SLUG (Some 4)]).
Proof.
  split; [vm_compute; reflexivity|].
  split; [apply (bool_decide_unpack _); vm_compute; exact I|].
  split; [apply (bool_decide_unpack _); vm_compute; exact I|].
  vm_compute; reflexivity.
Qed.

(** ** The grouping of [get_active_terms_ids] *)

Lemma group_slugs_elem rows s :
  s ∈ group_slugs rows ↔ ∃ t, t ∈ rows ∧ slug t = s.
Proof.
  unfold group_slugs. rewrite (merge_sort_Permutation String.le).
  rewrite elem_of_remove_dups, list_elem_of_fmap.
  split; intros (t & ? & ?); by exists t.
Qed.

Lemma group_slugs_NoDup rows : NoDup (group_slugs rows).
Proof.
  unfold group_slugs. rewrite (merge_sort_Permutation String.le).
  apply NoDup_remove_dups.
Qed.

Lemma group_slugs_sorted rows : Sorted String.le (group_slugs rows).
Proof. apply (Sorted_merge_sort String.le). Qed.

(** Every group has its row: of that slug, and with the greatest timestamp of
    the group. *)
Lemma group_max_spec rows s :
  s ∈ group_slugs rows →
  ∃ t, group_max rows s = Some t ∧ t ∈ rows ∧ slug t = s ∧
       ∀ t', t' ∈ rows → slug t' = s →
             date_lt (date_active t) (date_active t') = false.
Proof.
  intros (t0 & Hin0 & Hs0)%group_slugs_elem. unfold group_max.
  pose proof (latest_spec (filter (λ t, slug t = s) rows)) as H.
  destruct (latest _) as [t|e].
  - destruct H as [[Hs Hin]%list_elem_of_filter Hmax]. exists t.
    split; [done|]. split; [done|]. split; [done|].
    intros t' Hin' Hs'. apply Hmax. by apply list_elem_of_filter.
  - destruct H as [_ Hnil].
    assert (t0 ∈ filter (λ t, slug t = s) rows) as Hf by (by apply list_elem_of_filter).
    rewrite Hnil in Hf. by apply not_elem_of_nil in Hf.
Qed.

Lemma omap_fmap_section {A B} (f : A → option B) (g : B → A) (l : list A) :
  (∀ a, a ∈ l → ∃ b, f a = Some b ∧ g b = a) → g <$> omap f l = l.
Proof.
  induction l as [|a l IH]; intros H; [done|]. csimpl.
  destruct (H a) as (b & -> & Hg); [apply list_elem_of_here|].
  csimpl. rewrite Hg, IH; [done|].
  intros a' Ha'. apply H. by apply list_elem_of_further.
Qed.

Lemma raw_where_spec now t :
  raw_where now t ↔ ∃ d, date_active t = Some d ∧ d < now.
Proof.
  unfold raw_where. destruct (date_active t) as [d|].
  - rewrite Is_true_true, Z.ltb_lt. split; [by exists d|]. by intros (d' & [= <-] & ?).
  - split; [done|]. by intros (d' & ? & _).
Qed.

(** X1.  What the raw query computes: a genuine group-by-max over the rows
    with a non-null [date_active < now], the strict comparison of its WHERE
    clause.  On a cache miss [get_active_terms_ids] returns and caches the keys
    of one row per slug that has such a row, ordered by slug, each row having
    the greatest such [date_active] of its slug. *)
Lemma get_active_terms_ids_group_max tb now w :
  cache_miss active_terms_ids_key w →
  ∃ rows,
    get_active_terms_ids (Migrated tb) now w =
      (Ok (PIds (pk <$> rows)),
       {| cache := <[active_terms_ids_key := PIds (pk <$> rows)]> (cache w); log := log w |})
    ∧ Sorted String.le (slug <$> rows)
    ∧ NoDup (slug <$> rows)
    ∧ (∀ s, s ∈ slug <$> rows ↔
            ∃ t d, t ∈ terms_rows tb ∧ slug t = s ∧ date_active t = Some d ∧ d < now)
    ∧ (∀ t, t ∈ rows →
         t ∈ terms_rows tb ∧
         ∃ d, date_active t = Some d ∧ d < now ∧
              ∀ t' d', t' ∈ terms_rows tb → slug t' = slug t →
                       date_active t' = Some d' → d' < now → d' ≤ d).
Proof.
  intros Hmiss.
  rewrite get_active_terms_ids_on_miss, get_active_terms_ids_lookup_eq by done.
  set (R := filter (λ t, raw_where now t) (terms_rows tb)).
  eexists. split; [reflexivity|].
  assert (slug <$> omap (group_max R) (group_slugs R) = group_slugs R) as Hslugs.
  { apply omap_fmap_section. intros s Hs.
    destruct (group_max_spec R s Hs) as (t & ? & _ & ? & _). by exists t. }
  rewrite Hslugs.
  split; [apply group_slugs_sorted|]. split; [apply group_slugs_NoDup|]. split.
  - intros s. rewrite group_slugs_elem. split.
    + intros (t & [Hw Hin]%list_elem_of_filter & Hs).
      apply raw_where_spec in Hw as (d & Hd & Hlt). by exists t, d.
    + intros (t & d & Hin & Hs & Hd & Hlt). exists t. split; [|done].
      apply list_elem_of_filter. split; [|done]. apply raw_where_spec. by exists d.
  - intros t (s & Hs & Hg)%list_elem_of_omap.
    destruct (group_max_spec R s Hs) as (t1 & Hg1 & Hin & Hslug & Hmax).
    rewrite Hg in Hg1. injection Hg1 as <-.
    apply list_elem_of_filter in Hin as [Hw Hin].
    apply raw_where_spec in Hw as (d & Hd & Hlt).
    split; [done|]. exists d. split; [done|]. split; [done|].
    intros t' d' Hin' Hs' Hd' Hlt'.
    specialize (Hmax t'). rewrite Hd, Hd' in Hmax. simpl in Hmax.
    apply Z.ltb_ge, Hmax; [|congruence].
    apply list_elem_of_filter. split; [|done]. apply raw_where_spec. by exists d'.
Qed.

(** C2.  A version activated at the very instant [now] is non-future, and
    [get_active] returns it, yet [get_active_terms_ids] compares with [<]: at
    10 it reports the older version 1 for the default slug, where the row of
    greatest [date_active <= now] is version 2, and it reports nothing for
    "privacy", whose only version was activated at 10. *)
Theorem get_active_terms_ids_skips_now :
  (get_active_terms_ids (Migrated activated_now) 10 empty_world).1 = Ok (PIds [1])
  ∧ (get_active (Migrated activated_now) 10 DEFAULT_TERMS_SLUG empty_world).1
    = Ok (PTerms (mk_terms 2 DEFAULT_TERMS_SLUG (Some 10)))
  ∧ (get_active (Migrated activated_now) 10 "privacy" empty_world).1
    = Ok (PTerms (mk_terms 3 "privacy" (Some 10))).
Proof. repeat split; vm_compute; reflexivity. Qed.

(** ** Empty results and the cache *)

Section read_through.
Variable key : string.
Variable h : call → M pyval.
Variable fresh : call → world → result pyval → Prop.

Hypothesis h_hit : ∀ e w,
  truthy (cached key w) = true → h e w = (Ok (cached key w), w).
Hypothesis h_keeps_miss : ∀ e w v w',
  cache_miss key w → h e w = (Ok v, w') → truthy v = false → cache_miss key w'.
Hypothesis h_fresh : ∀ e w, cache_miss key w → fresh e w (h e w).1.



End read_through.



Lemma get_active_terms_list_hit db now w :
  truthy (cached active_terms_list_key w) = true →
  get_active_terms_list db now w = (Ok (cached active_terms_list_key w), w).
Proof. intros H. unfold get_active_terms_list, mbind, M_bind, cache_get. by rewrite H. Qed.

Lemma get_active_terms_list_on_miss db now w :
  cache_miss active_terms_list_key w →
  get_active_terms_list db now w = get_active_terms_list_lookup db now w.
Proof. intros H. unfold get_active_terms_list, mbind, M_bind, cache_get. by rewrite H. Qed.

Lemma get_active_terms_list_lookup_eq db now w :
  get_active_terms_list_lookup db now w =
  match get_active_terms_ids db now w with
  | (Ok v, w1) =>
      match as_id_list v with
      | Ok ids =>
          match filter_id_in db ids with
          | Ok rows =>
              (Ok (PQuerySet rows),
               {| cache := <[active_terms_list_key := PQuerySet rows]> (cache w1);
                  log := log w1 |})
          | Raise ProgrammingError =>
              (Ok PLazyQuerySet,
               {| cache := cache w1;
                  log := log w1 ++ [(WARNING, "Unable to find active terms list because terms and conditions tables not initialized.")] |})
          | Raise e => (Raise e, w1)
          end
      | Raise ProgrammingError =>
          (Ok PLazyQuerySet,
           {| cache := cache w1;
              log := log w1 ++ [(WARNING, "Unable to find active terms list because terms and conditions tables not initialized.")] |})
      | Raise e => (Raise e, w1)
      end
  | (Raise ProgrammingError, w1) =>
      (Ok PLazyQuerySet,
       {| cache := cache w1;
          log := log w1 ++ [(WARNING, "Unable to find active terms list because terms and conditions tables not initialized.")] |})
  | (Raise e, w1) => (Raise e, w1)
  end.
Proof.
  unfold get_active_terms_list_lookup, try_except, mbind, M_bind, orm.
  destruct (get_active_terms_ids db now w) as [[v|[]] w1]; try reflexivity.
  destruct (as_id_list v) as [ids|[]]; try reflexivity.
  destruct (filter_id_in db ids) as [rows|[]]; reflexivity.
Qed.










(** Two calls for a slug with nothing activated: both look the store up and
    both log the error; nothing is cached in between. *)
Example get_active_twice_nothing_activated :
  let e := {| at_db := Migrated nothing_activated; at_now := 10; for_user := 7 |} in
  calls (λ e, get_active (at_db e) (at_now e) DEFAULT_TERMS_SLUG) [e; e] empty_world
  = ([Ok PNone; Ok PNone],
     {| cache := ∅;
        log := [(ERROR, "Requested Terms and Conditions that Have Not Been Created.");
                (ERROR, "Requested Terms and Conditions that Have Not Been Created.")] |}).
Proof. vm_compute. reflexivity. Qed.

(** The empty list that [get_active_terms_ids] stores is looked up again. *)
Example get_active_terms_ids_empty_then_filled :
  let before := {| at_db := Migrated nothing_activated; at_now := 10; for_user := 7 |} in
  let after := {| at_db := Migrated three_versions; at_now := 10; for_user := 7 |} in
  (calls (λ e, get_active_terms_ids (at_db e) (at_now e)) [before; after] empty_world).1
  = [Ok (PIds []); Ok (PIds [3])].
Proof. vm_compute. reflexivity. Qed.

(** A true entry, in contrast, is served as it is: there is no invalidation,
    so the version cached at the first call outlives its deactivation. *)
Example get_active_serves_true_entry :
  let before := {| at_db := Migrated three_versions; at_now := 10; for_user := 7 |} in
  let after := {| at_db := Migrated nothing_activated; at_now := 10; for_user := 7 |} in
  (calls (λ e, get_active (at_db e) (at_now e) DEFAULT_TERMS_SLUG) [before; after] empty_world).1
  = [Ok (PTerms (mk_terms 3 DEFAULT_TERMS_SLUG (Some 8)));
     Ok (PTerms (mk_terms 3 DEFAULT_TERMS_SLUG (Some 8)))].
Proof. vm_compute. reflexivity. Qed.

(** ** Further properties of [get_active] *)

Lemma get_active_result db now s w :
  (get_active db now s w).1 =
  if truthy (cached (active_terms_key s) w) then Ok (cached (active_terms_key s) w)
  else match query_active db now s with
       | Ok t => Ok (PTerms t)
       | Raise DoesNotExist => Ok PNone
       | Raise e => Raise e
       end.
Proof.
  destruct (truthy (cached (active_terms_key s) w)) eqn:Hc.
  - by rewrite get_active_hit.
  - rewrite get_active_on_miss, get_active_lookup_eq by done.
    by destruct (query_active db now s) as [t|[]].
Qed.

Lemma get_active_frame db now s w k :
  k ≠ active_terms_key s →
  cached k (get_active db now s w).2 = cached k w.
Proof.
  intros Hk. destruct (truthy (cached (active_terms_key s) w)) eqn:Hc.
  - by rewrite get_active_hit.
  - rewrite get_active_on_miss, get_active_lookup_eq by done.
    destruct (query_active db now s) as [t|[]]; try done.
    simpl. by rewrite cached_insert_ne.
Qed.

Lemma get_active_returned_is_cached db now s w v w' :
  get_active db now s w = (Ok v, w') → truthy v = true →
  cached (active_terms_key s) w' = v.
Proof.
  intros Hrun Hv. destruct (truthy (cached (active_terms_key s) w)) eqn:Hc.
  - rewrite get_active_hit in Hrun by done. by injection Hrun as <- <-.
  - rewrite get_active_on_miss, get_active_lookup_eq in Hrun by done.
    destruct (query_active db now s) as [t|[]]; try discriminate.
    + injection Hrun as <- <-. apply cached_insert_eq.
    + injection Hrun as <- <-. discriminate.
Qed.

(** X4.  Nothing invalidates the entry of a slug: once [get_active] has
    returned a version, every later call for that slug, on whatever store and
    at whatever time, returns that same version from the cache and changes
    neither the cache nor the log. *)
Theorem get_active_sticky db now s w v w' :
  get_active db now s w = (Ok v, w') →
  truthy v = true →
  ∀ db' now', get_active db' now' s w' = (Ok v, w').
Proof.
  intros Hrun Hv db' now'.
  pose proof (get_active_returned_is_cached db now s w v w' Hrun Hv) as Hc.
  rewrite get_active_hit by (by rewrite Hc). by rewrite Hc.
Qed.

Lemma get_active_sticky_witness :
  let v := PTerms (mk_terms 3 DEFAULT_TERMS_SLUG (Some 8)) in
  let w' := (get_active (Migrated three_versions) 10 DEFAULT_TERMS_SLUG empty_world).2 in
  get_active (Migrated three_versions) 10 DEFAULT_TERMS_SLUG empty_world = (Ok v, w')
  ∧ truthy v = true
  ∧ ∀ db' now', get_active db' now' DEFAULT_TERMS_SLUG w' = (Ok v, w').
Proof.
  intros v w'.
  assert (get_active (Migrated three_versions) 10 DEFAULT_TERMS_SLUG empty_world = (Ok v, w'))
    as Hrun by (vm_compute; reflexivity).
  split; [exact Hrun|]. split; [reflexivity|].
  exact (get_active_sticky (Migrated three_versions) 10 DEFAULT_TERMS_SLUG empty_world
           v w' Hrun eq_refl).
Defined.

Lemma active_terms_key_inj s s' : active_terms_key s = active_terms_key s' → s = s'.
Proof. unfold active_terms_key. apply (inj (String.app _)). Qed.

(** X12.  Lookups of different slugs do not disturb each other: a call of
    [get_active] for slug [s] leaves the entry of any other slug [s'] as it
    was, so the answer for [s'] is the same before and after it. *)
Theorem get_active_other_slug db now s db' now' s' w :
  s ≠ s' →
  cached (active_terms_key s') (get_active db now s w).2 = cached (active_terms_key s') w
  ∧ (get_active db' now' s' (get_active db now s w).2).1 = (get_active db' now' s' w).1.
Proof.
  intros Hne.
  assert (cached (active_terms_key s') (get_active db now s w).2
          = cached (active_terms_key s') w) as Hc.
  { apply get_active_frame. intros Hk. by apply active_terms_key_inj in Hk. }
  split; [done|]. by rewrite !get_active_result, Hc.
Qed.

Lemma get_active_other_slug_witness :
  DEFAULT_TERMS_SLUG ≠ "privacy"
  ∧ cached (active_terms_key "privacy")
      (get_active (Migrated two_slugs) 10 DEFAULT_TERMS_SLUG empty_world).2
    = cached (active_terms_key "privacy") empty_world
  ∧ (get_active (Migrated two_slugs) 10 "privacy"
       (get_active (Migrated two_slugs) 10 DEFAULT_TERMS_SLUG empty_world).2).1
    = (get_active (Migrated two_slugs) 10 "privacy" empty_world).1.
Proof.
  assert (DEFAULT_TERMS_SLUG ≠ "privacy") as Hne by discriminate.
  split; [exact Hne|].
  exact (get_active_other_slug (Migrated two_slugs) 10 DEFAULT_TERMS_SLUG
           (Migrated two_slugs) 10 "privacy" empty_world Hne).
Defined.

(** X14.  Fresh lookups never step back in time: if the lookup at [now]
    finds a version, the lookup on the same store at a later [now'] finds one
    too, and its [date_active] is not earlier. *)
Theorem get_active_monotone tb now now' s w w' t :
  now ≤ now' →
  cache_miss (active_terms_key s) w →
  cache_miss (active_terms_key s) w' →
  (get_active (Migrated tb) now s w).1 = Ok (PTerms t) →
  ∃ t' d d',
    (get_active (Migrated tb) now' s w').1 = Ok (PTerms t')
    ∧ date_active t = Some d ∧ date_active t' = Some d'
    ∧ d ≤ d' ∧ d' ≤ now'.
Proof.
  intros Hle Hmiss Hmiss' Hrun.
  rewrite get_active_result in Hrun. unfold cache_miss in Hmiss. rewrite Hmiss in Hrun.
  rewrite get_active_result. unfold cache_miss in Hmiss'. rewrite Hmiss'.
  pose proof (query_active_spec tb now s) as Hq.
  pose proof (query_active_spec tb now' s) as Hq'.
  destruct (query_active (Migrated tb) now s) as [t0|[]]; try discriminate.
  injection Hrun as ->.
  destruct Hq as (Hin & [Hslug (d & Hd & Hdle)] & _).
  assert (activated now' s t) as Hact' by (split; [done|]; exists d; split; [done|lia]).
  destruct (query_active (Migrated tb) now' s) as [t'|e'].
  - destruct Hq' as (Hin' & [Hslug' (d' & Hd' & Hdle')] & Hmax').
    exists t', d, d'. repeat split; try done.
    by apply (Hmax' t d' d).
  - destruct Hq' as [_ Hnone]. by destruct (Hnone t Hin).
Qed.

Lemma get_active_monotone_witness :
  6 ≤ 10
  ∧ cache_miss (active_terms_key DEFAULT_TERMS_SLUG) empty_world
  ∧ cache_miss (active_terms_key DEFAULT_TERMS_SLUG) empty_world
  ∧ (get_active (Migrated three_versions) 6 DEFAULT_TERMS_SLUG empty_world).1
    = Ok (PTerms (mk_terms 2 DEFAULT_TERMS_SLUG (Some 5)))
  ∧ ∃ t' d d',
      (get_active (Migrated three_versions) 10 DEFAULT_TERMS_SLUG empty_world).1
        = Ok (PTerms t')
      ∧ date_active (mk_terms 2 DEFAULT_TERMS_SLUG (Some 5)) = Some d
      ∧ date_active t' = Some d'
      ∧ d ≤ d' ∧ d' ≤ 10.
Proof.
  assert (6 ≤ 10) as Hle by lia.
  split; [exact Hle|]. split; [reflexivity|]. split; [reflexivity|]. split; [reflexivity|].
  exact (get_active_monotone three_versions 6 10 DEFAULT_TERMS_SLUG empty_world empty_world
           (mk_terms 2 DEFAULT_TERMS_SLUG (Some 5)) Hle eq_refl eq_refl eq_refl).
Defined.

(** ** Further properties of [get_active_terms_ids] and [get_active_terms_list] *)

Lemma get_active_terms_ids_miss_migrated tb now w :
  cache_miss active_terms_ids_key w →
  get_active_terms_ids (Migrated tb) now w =
    (Ok (PIds (pk <$> active_terms_set tb now)),
     {| cache := <[active_terms_ids_key := PIds (pk <$> active_terms_set tb now)]> (cache w);
        log := log w |}).
Proof.
  intros Hmiss.
  by rewrite get_active_terms_ids_on_miss, get_active_terms_ids_lookup_eq.
Qed.

Lemma active_terms_set_slugs tb now :
  slug <$> active_terms_set tb now
  = group_slugs (filter (λ t, raw_where now t) (terms_rows tb)).
Proof.
  apply omap_fmap_section. intros s Hs.
  destruct (group_max_spec _ s Hs) as (t & ? & _ & ? & _). by exists t.
Qed.

Lemma active_terms_set_elem tb now t :
  t ∈ active_terms_set tb now →
  t ∈ terms_rows tb ∧
  ∃ d, date_active t = Some d ∧ d < now ∧
       ∀ t' d', t' ∈ terms_rows tb → slug t' = slug t →
                date_active t' = Some d' → d' < now → d' ≤ d.
Proof.
  intros (s & Hs & Hg)%list_elem_of_omap.
  destruct (group_max_spec _ s Hs) as (t1 & Hg1 & Hin & Hslug & Hmax).
  rewrite Hg in Hg1. injection Hg1 as <-.
  apply list_elem_of_filter in Hin as [Hw Hin].
  apply raw_where_spec in Hw as (d & Hd & Hlt).
  split; [done|]. exists d. split; [done|]. split; [done|].
  intros t' d' Hin' Hs' Hd' Hlt'.
  specialize (Hmax t'). rewrite Hd, Hd' in Hmax. simpl in Hmax.
  apply Z.ltb_ge, Hmax; [|congruence].
  apply list_elem_of_filter. split; [|done]. apply raw_where_spec. by exists d'.
Qed.

Lemma active_terms_set_covers tb now t d :
  t ∈ terms_rows tb → date_active t = Some d → d < now →
  ∃ t', t' ∈ active_terms_set tb now ∧ slug t' = slug t.
Proof.
  intros Hin Hd Hlt.
  assert (slug t ∈ slug <$> active_terms_set tb now) as Hs.
  { rewrite active_terms_set_slugs. apply group_slugs_elem. exists t. split; [|done].
    apply list_elem_of_filter. split; [|done]. apply raw_where_spec. by exists d. }
  apply list_elem_of_fmap in Hs as (t' & Hs' & Hin'). by exists t'.
Qed.

Lemma get_active_terms_ids_group_max_witness :
  cache_miss active_terms_ids_key empty_world ∧
  ∃ rows,
    get_active_terms_ids (Migrated two_slugs) 10 empty_world =
      (Ok (PIds (pk <$> rows)),
       {| cache := <[active_terms_ids_key := PIds (pk <$> rows)]> (cache empty_world);
          log := log empty_world |})
    ∧ Sorted String.le (slug <$> rows)
    ∧ NoDup (slug <$> rows)
    ∧ (∀ s, s ∈ slug <$> rows ↔
            ∃ t d, t ∈ terms_rows two_slugs ∧ slug t = s ∧ date_active t = Some d ∧ d < 10)
    ∧ (∀ t, t ∈ rows →
         t ∈ terms_rows two_slugs ∧
         ∃ d, date_active t = Some d ∧ d < 10 ∧
              ∀ t' d', t' ∈ terms_rows two_slugs → slug t' = slug t →
                       date_active t' = Some d' → d' < 10 → d' ≤ d).
Proof.
  split; [reflexivity|].
  exact (get_active_terms_ids_group_max two_slugs 10 empty_world eq_refl).
Defined.

(** X2.  Before the first migration, on a cache miss, [get_active_terms_ids]
    handles the missing tables where the backend reports them as
    [ProgrammingError]: it answers with the empty list, logs one warning and
    caches nothing.  On SQLite the report is [OperationalError], which its
    handler does not name: the exception reaches the caller and the state is
    as it was. *)
Theorem get_active_terms_ids_missing_tables now w :
  cache_miss active_terms_ids_key w →
  get_active_terms_ids Unmigrated now w =
    (Ok (PIds []),
     {| cache := cache w;
        log := log w ++ [(WARNING, "Unable to find active terms ids because terms and conditions tables not initialized.")] |})
  ∧ get_active_terms_ids UnmigratedSQLite now w = (Raise OperationalError, w).
Proof.
  intros Hmiss.
  by rewrite !get_active_terms_ids_on_miss, !get_active_terms_ids_lookup_eq.
Qed.

Lemma get_active_terms_ids_missing_tables_witness :
  cache_miss active_terms_ids_key empty_world
  ∧ get_active_terms_ids Unmigrated 10 empty_world =
      (Ok (PIds []),
       {| cache := cache empty_world;
          log := log empty_world ++ [(WARNING, "Unable to find active terms ids because terms and conditions tables not initialized.")] |})
  ∧ get_active_terms_ids UnmigratedSQLite 10 empty_world
    = (Raise OperationalError, empty_world).
Proof.
  split; [reflexivity|].
  exact (get_active_terms_ids_missing_tables 10 empty_world eq_refl).
Defined.

Lemma get_active_terms_ids_returned_is_cached db now w v w' :
  get_active_terms_ids db now w = (Ok v, w') → truthy v = true →
  cached active_terms_ids_key w' = v.
Proof.
  intros Hrun Hv. destruct (truthy (cached active_terms_ids_key w)) eqn:Hc.
  - rewrite get_active_terms_ids_hit in Hrun by done. by injection Hrun as <- <-.
  - rewrite get_active_terms_ids_on_miss, get_active_terms_ids_lookup_eq in Hrun by done.
    destruct db as [| |tb].
    + injection Hrun as <- <-. discriminate.
    + discriminate.
    + cbv zeta in Hrun. injection Hrun as <- <-. apply cached_insert_eq.
Qed.

Lemma get_active_terms_list_returned_is_cached db now w rows w' :
  get_active_terms_list db now w = (Ok (PQuerySet rows), w') → rows ≠ [] →
  cached active_terms_list_key w' = PQuerySet rows.
Proof.
  intros Hrun Hne. destruct (truthy (cached active_terms_list_key w)) eqn:Hc.
  - rewrite get_active_terms_list_hit in Hrun by done. by injection Hrun as <- <-.
  - rewrite get_active_terms_list_on_miss, get_active_terms_list_lookup_eq in Hrun by done.
    destruct (get_active_terms_ids_returns db now w) as [(v0 & w1 & Hids & _)|Hids];
      rewrite Hids in Hrun; [|discriminate].
    destruct (as_id_list v0) as [ids|[]]; try discriminate.
    destruct (filter_id_in db ids) as [rows'|[]]; try discriminate.
    injection Hrun as <- <-. apply cached_insert_eq.
Qed.

(** X5.  Nothing invalidates the two fixed entries either: a non-empty id list
    that [get_active_terms_ids] has returned, and a non-empty query set that
    [get_active_terms_list] has returned, are what every later call returns,
    on whatever store and at whatever time, with the state left unchanged. *)
Theorem active_terms_entries_sticky db now w w' :
  (∀ v, get_active_terms_ids db now w = (Ok v, w') → truthy v = true →
        ∀ db' now', get_active_terms_ids db' now' w' = (Ok v, w'))
  ∧ (∀ rows, get_active_terms_list db now w = (Ok (PQuerySet rows), w') → rows ≠ [] →
        ∀ db' now', get_active_terms_list db' now' w' = (Ok (PQuerySet rows), w')).
Proof.
  split.
  - intros v Hrun Hv db' now'.
    pose proof (get_active_terms_ids_returned_is_cached db now w v w' Hrun Hv) as Hc.
    rewrite get_active_terms_ids_hit by (by rewrite Hc). by rewrite Hc.
  - intros rows Hrun Hne db' now'.
    pose proof (get_active_terms_list_returned_is_cached db now w rows w' Hrun Hne) as Hc.
    rewrite get_active_terms_list_hit; rewrite Hc; [done|]. by destruct rows.
Qed.

Lemma active_terms_entries_sticky_witness :
  let w1 := (get_active_terms_ids (Migrated two_slugs) 10 empty_world).2 in
  let rows := [mk_terms 2 "privacy" (Some 6); mk_terms 3 DEFAULT_TERMS_SLUG (Some 4)] in
  let w2 := (get_active_terms_list (Migrated two_slugs) 10 empty_world).2 in
  (get_active_terms_ids (Migrated two_slugs) 10 empty_world = (Ok (PIds [2; 3]), w1)
   ∧ truthy (PIds [2; 3]) = true
   ∧ ∀ db' now', get_active_terms_ids db' now' w1 = (Ok (PIds [2; 3]), w1))
  ∧ (get_active_terms_list (Migrated two_slugs) 10 empty_world = (Ok (PQuerySet rows), w2)
     ∧ rows ≠ []
     ∧ ∀ db' now', get_active_terms_list db' now' w2 = (Ok (PQuerySet rows), w2)).
Proof.
  intros w1 rows w2.
  assert (get_active_terms_ids (Migrated two_slugs) 10 empty_world = (Ok (PIds [2; 3]), w1))
    as Hids by (vm_compute; reflexivity).
  assert (get_active_terms_list (Migrated two_slugs) 10 empty_world = (Ok (PQuerySet rows), w2))
    as Hlist by (vm_compute; reflexivity).
  assert (rows ≠ []) as Hne by discriminate.
  split.
  - split; [exact Hids|]. split; [reflexivity|].
    exact (proj1 (active_terms_entries_sticky (Migrated two_slugs) 10 empty_world w1)
             (PIds [2; 3]) Hids eq_refl).
  - split; [exact Hlist|]. split; [exact Hne|].
    exact (proj2 (active_terms_entries_sticky (Migrated two_slugs) 10 empty_world w2)
             rows Hlist Hne).
Defined.

Lemma Sorted_fmap_inv {A B} (R : relation B) (f : A → B) (l : list A) :
  Sorted R (f <$> l) → Sorted (λ x y, R (f x) (f y)) l.
Proof.
  induction l as [|a l IH]; intros Hs; [constructor|].
  rewrite fmap_cons in Hs. apply Sorted_inv in Hs as [Hs Hhd].
  constructor; [by apply IH|].
  destruct l as [|b l]; constructor. by apply HdRel_inv in Hhd.
Qed.

Lemma Permutation_fmap_eq {A B} (f : A → B) (l1 l2 : list A) :
  l1 ≡ₚ l2 → f <$> l1 = f <$> l2 → NoDup (f <$> l2) → l1 = l2.
Proof.
  revert l2. induction l1 as [|a l1 IH]; intros l2 Hperm Hf Hnd.
  - by destruct l2.
  - destruct l2 as [|b l2]; [done|].
    rewrite !fmap_cons in Hf. injection Hf as Hab Hf.
    assert (a = b) as ->.
    { apply (NoDup_fmap_eq f (b :: l2)); [done| |apply list_elem_of_here|done].
      rewrite <- Hperm. apply list_elem_of_here. }
    f_equal. apply IH; [by apply Permutation_cons_inv in Hperm|done|].
    rewrite fmap_cons in Hnd. by apply NoDup_cons in Hnd as [_ ?].
Qed.

(** Asking for the rows of one row per slug, already in slug order, gives
    those rows back. *)
Lemma filter_id_in_rows tb (G : list TermsAndConditions) :
  NoDup (pk <$> terms_rows tb) →
  (∀ t, t ∈ G → t ∈ terms_rows tb) →
  NoDup (slug <$> G) → Sorted String.le (slug <$> G) →
  filter_id_in (Migrated tb) (pk <$> G) = Ok G.
Proof.
  intros Hpk Hsub Hnd Hsorted.
  destruct G as [|g G']; [done|].
  set (G := g :: G') in *.
  assert (filter_id_in (Migrated tb) (pk <$> G)
          = Ok (order_by_slug (filter (λ t, pk t ∈ pk <$> G) (terms_rows tb)))) as ->
    by done.
  f_equal.
  set (F := filter (λ t, pk t ∈ pk <$> G) (terms_rows tb)).
  assert (F ≡ₚ G) as Hperm.
  { apply NoDup_Permutation.
    - apply NoDup_filter. by eapply NoDup_fmap_1.
    - by eapply NoDup_fmap_1.
    - intros t. unfold F. rewrite list_elem_of_filter. split.
      + intros [(g' & Hpkg & Hg')%list_elem_of_fmap Hin].
        by rewrite (NoDup_fmap_eq pk _ t g' Hpk Hin (Hsub g' Hg') Hpkg).
      + intros Hin. split; [by apply list_elem_of_fmap_2|by apply Hsub]. }
  apply (Permutation_fmap_eq slug).
  - unfold order_by_slug. by rewrite (merge_sort_Permutation slug_le).
  - apply (Sorted_unique String.le).
    + apply (Sorted_fmap slug slug_le String.le); [done|apply order_by_slug_sorted].
    + done.
    + apply fmap_Permutation. unfold order_by_slug.
      by rewrite (merge_sort_Permutation slug_le).
  - done.
Qed.

(** X6.  On a cold cache and a migrated database with unique primary keys,
    [get_active_terms_list] returns, in the same order, exactly the rows whose
    keys [get_active_terms_ids] returns: one row per slug, ordered by slug, and
    both results are cached. *)
Theorem get_active_terms_list_rows_of_ids tb now w :
  NoDup (pk <$> terms_rows tb) →
  cache_miss active_terms_list_key w →
  cache_miss active_terms_ids_key w →
  ∃ rows w',
    get_active_terms_list (Migrated tb) now w = (Ok (PQuerySet rows), w')
    ∧ (get_active_terms_ids (Migrated tb) now w).1 = Ok (PIds (pk <$> rows))
    ∧ Sorted slug_le rows
    ∧ NoDup (slug <$> rows)
    ∧ (∀ t, t ∈ rows → t ∈ terms_rows tb)
    ∧ cached active_terms_list_key w' = PQuerySet rows
    ∧ cached active_terms_ids_key w' = PIds (pk <$> rows).
Proof.
  intros Hpk Hmiss Hmiss_ids.
  set (G := active_terms_set tb now).
  assert (NoDup (slug <$> G)) as Hnd.
  { unfold G. rewrite active_terms_set_slugs. apply group_slugs_NoDup. }
  assert (Sorted String.le (slug <$> G)) as Hsorted.
  { unfold G. rewrite active_terms_set_slugs. apply group_slugs_sorted. }
  assert (∀ t, t ∈ G → t ∈ terms_rows tb) as Hsub.
  { intros t Ht. by apply active_terms_set_elem in Ht as [? _]. }
  exists G. eexists.
  rewrite get_active_terms_list_on_miss, get_active_terms_list_lookup_eq by done.
  rewrite get_active_terms_ids_miss_migrated by done. fold G.
  simpl as_id_list. cbv iota.
  rewrite (filter_id_in_rows tb G Hpk Hsub Hnd Hsorted).
  split; [reflexivity|]. split; [done|].
  split; [exact (Sorted_fmap_inv String.le slug G Hsorted)|].
  split; [done|]. split; [done|].
  split; [apply cached_insert_eq|].
  rewrite cached_insert_ne by done. simpl. by rewrite lookup_insert_eq.
Qed.

Lemma get_active_terms_list_rows_of_ids_witness :
  NoDup (pk <$> terms_rows two_slugs)
  ∧ cache_miss active_terms_list_key empty_world
  ∧ cache_miss active_terms_ids_key empty_world
  ∧ ∃ rows w',
      get_active_terms_list (Migrated two_slugs) 10 empty_world = (Ok (PQuerySet rows), w')
      ∧ (get_active_terms_ids (Migrated two_slugs) 10 empty_world).1 = Ok (PIds (pk <$> rows))
      ∧ Sorted slug_le rows
      ∧ NoDup (slug <$> rows)
      ∧ (∀ t, t ∈ rows → t ∈ terms_rows two_slugs)
      ∧ cached active_terms_list_key w' = PQuerySet rows
      ∧ cached active_terms_ids_key w' = PIds (pk <$> rows).
Proof.
  assert (NoDup (pk <$> terms_rows two_slugs)) as Hpk.
  { apply (bool_decide_unpack _). vm_compute. exact I. }
  split; [exact Hpk|]. split; [reflexivity|]. split; [reflexivity|].
  exact (get_active_terms_list_rows_of_ids two_slugs 10 empty_world Hpk eq_refl eq_refl).
Defined.

(** X7.  Before the first migration, with neither entry cached, what
    [get_active_terms_list] does depends on how the backend reports the
    missing tables.  Where it is [ProgrammingError] the helper returns the
    empty query set: the failure is absorbed by [get_active_terms_ids], whose
    warning is the only log line, and with no key to look for no query is
    sent.  On SQLite the [OperationalError] raised inside
    [get_active_terms_ids] is named by neither handler and reaches the caller,
    the state being as it was. *)
Theorem get_active_terms_list_unmigrated now w :
  cache_miss active_terms_list_key w →
  cache_miss active_terms_ids_key w →
  get_active_terms_list Unmigrated now w =
    (Ok (PQuerySet []),
     {| cache := <[active_terms_list_key := PQuerySet []]> (cache w);
        log := log w ++ [(WARNING, "Unable to find active terms ids because terms and conditions tables not initialized.")] |})
  ∧ get_active_terms_list UnmigratedSQLite now w = (Raise OperationalError, w).
Proof.
  intros Hmiss Hmiss_ids.
  rewrite !get_active_terms_list_on_miss, !get_active_terms_list_lookup_eq by done.
  by rewrite !get_active_terms_ids_on_miss, !get_active_terms_ids_lookup_eq.
Qed.

Lemma get_active_terms_list_unmigrated_witness :
  cache_miss active_terms_list_key empty_world
  ∧ cache_miss active_terms_ids_key empty_world
  ∧ get_active_terms_list Unmigrated 10 empty_world =
      (Ok (PQuerySet []),
       {| cache := <[active_terms_list_key := PQuerySet []]> (cache empty_world);
          log := log empty_world ++ [(WARNING, "Unable to find active terms ids because terms and conditions tables not initialized.")] |})
  ∧ get_active_terms_list UnmigratedSQLite 10 empty_world
    = (Raise OperationalError, empty_world).
Proof.
  split; [reflexivity|]. split; [reflexivity|].
  exact (get_active_terms_list_unmigrated 10 empty_world eq_refl eq_refl).
Defined.

(** X15.  Away from the boundary instant the two resolvers agree: when no row
    is activated exactly at [now], the version that a fresh [get_active slug]
    returns has the same [date_active] as a row of that slug whose key is in
    the fresh [get_active_terms_ids] list. *)
Theorem get_active_agrees_with_ids tb now s w w2 t :
  cache_miss (active_terms_key s) w →
  cache_miss active_terms_ids_key w2 →
  (∀ t', t' ∈ terms_rows tb → date_active t' ≠ Some now) →
  (get_active (Migrated tb) now s w).1 = Ok (PTerms t) →
  ∃ ids t',
    (get_active_terms_ids (Migrated tb) now w2).1 = Ok (PIds ids)
    ∧ t' ∈ terms_rows tb ∧ pk t' ∈ ids ∧ slug t' = s
    ∧ date_active t' = date_active t.
Proof.
  intros Hmiss Hmiss2 Hnow Hrun.
  rewrite get_active_result in Hrun. unfold cache_miss in Hmiss. rewrite Hmiss in Hrun.
  pose proof (query_active_spec tb now s) as Hq.
  destruct (query_active (Migrated tb) now s) as [t0|[]]; try discriminate.
  injection Hrun as ->.
  destruct Hq as (Hin & [Hslug (d & Hd & Hdle)] & Hmax).
  assert (d < now) as Hlt.
  { destruct (decide (d = now)) as [->|]; [by destruct (Hnow t Hin)|lia]. }
  destruct (active_terms_set_covers tb now t d Hin Hd Hlt) as (t' & Hin' & Hslug').
  pose proof (active_terms_set_elem tb now t' Hin') as (Hrow' & d' & Hd' & Hlt' & Hmax').
  exists (pk <$> active_terms_set tb now), t'.
  rewrite get_active_terms_ids_miss_migrated by done.
  split; [done|]. split; [done|]. split; [by apply list_elem_of_fmap_2|].
  split; [congruence|].
  assert (d ≤ d') by (apply (Hmax' t d); [done|congruence|done|done]).
  assert (d' ≤ d).
  { apply (Hmax t' d d'); try done. split; [congruence|]. exists d'. split; [done|lia]. }
  rewrite Hd, Hd'. f_equal. lia.
Qed.

Lemma get_active_agrees_with_ids_witness :
  cache_miss (active_terms_key "privacy") empty_world
  ∧ cache_miss active_terms_ids_key empty_world
  ∧ (∀ t', t' ∈ terms_rows two_slugs → date_active t' ≠ Some 10)
  ∧ (get_active (Migrated two_slugs) 10 "privacy" empty_world).1
    = Ok (PTerms (mk_terms 2 "privacy" (Some 6)))
  ∧ ∃ ids t',
      (get_active_terms_ids (Migrated two_slugs) 10 empty_world).1 = Ok (PIds ids)
      ∧ t' ∈ terms_rows two_slugs ∧ pk t' ∈ ids ∧ slug t' = "privacy"
      ∧ date_active t' = date_active (mk_terms 2 "privacy" (Some 6)).
Proof.
  assert (∀ t', t' ∈ terms_rows two_slugs → date_active t' ≠ Some 10) as Hnow.
  { intros t' Hin. simpl in Hin.
    apply elem_of_cons in Hin as [->|Hin]; [discriminate|].
    apply elem_of_cons in Hin as [->|Hin]; [discriminate|].
    apply list_elem_of_singleton in Hin as ->. discriminate. }
  split; [reflexivity|]. split; [reflexivity|]. split; [exact Hnow|]. split; [reflexivity|].
  exact (get_active_agrees_with_ids two_slugs 10 "privacy" empty_world empty_world
           (mk_terms 2 "privacy" (Some 6)) eq_refl eq_refl Hnow eq_refl).
Defined.

(** ** Further properties of the acceptance checks *)

(** X10.  [agreed_to_terms] reads the store and nothing else changes: it
    leaves the cache and the log as they are; on a migrated database every
    boolean it returns says whether an acceptance row exists for the user and
    the given value (a model instance standing for its key, a query set for
    the key its sub-select yields, [None] and a list of keys for nothing), and
    the only exception it can end in is [MultipleObjectsReturned], raised when
    such rows do exist. *)
Theorem agreed_to_terms_sound :
  (∀ sub db usr v w, (agreed_to_terms sub db usr v w).2 = w)
  ∧ (∀ sub tb usr v w,
       match (agreed_to_terms sub (Migrated tb) usr v w).1 with
       | Ok b => b = bool_decide (accepted_value sub tb usr v)
       | Raise e => e = MultipleObjectsReturned ∧ accepted_value sub tb usr v
       end).
Proof.
  split.
  - intros sub db usr v w. by rewrite agreed_to_terms_eq.
  - intros sub tb usr v w. rewrite agreed_to_terms_eq. simpl.
    pose proof (userterms_get_spec sub tb usr v) as Hs.
    destruct (userterms_get sub (Migrated tb) usr v) as [r|[]]; try done;
      symmetry; first [by apply bool_decide_eq_true | by apply bool_decide_eq_false].
Qed.

(** X11.  For a slug with nothing activated, on a cache miss,
    [agreed_to_latest] answers false for every user, whatever acceptance rows
    the user has, and the only trace is the error that [get_active] logs. *)
Theorem agreed_to_latest_nothing_activated sub tb now usr s w :
  cache_miss (active_terms_key s) w →
  (∀ t, t ∈ terms_rows tb → ¬ activated now s t) →
  agreed_to_latest sub (Migrated tb) now usr s w =
    (Ok false,
     {| cache := cache w;
        log := log w ++ [(ERROR, "Requested Terms and Conditions that Have Not Been Created.")] |}).
Proof.
  intros Hmiss Hnone.
  rewrite agreed_to_latest_eq, get_active_on_miss, get_active_lookup_eq by done.
  pose proof (query_active_spec tb now s) as Hq.
  destruct (query_active (Migrated tb) now s) as [t|e].
  - destruct Hq as (Hin & Hact & _). by destruct (Hnone t Hin).
  - by destruct Hq as [-> _].
Qed.

Lemma agreed_to_latest_nothing_activated_witness :
  cache_miss (active_terms_key DEFAULT_TERMS_SLUG) empty_world
  ∧ (∀ t, t ∈ terms_rows nothing_activated → ¬ activated 10 DEFAULT_TERMS_SLUG t)
  ∧ agreed_to_latest first_row_key (Migrated nothing_activated) 10 7 DEFAULT_TERMS_SLUG
      empty_world =
      (Ok false,
       {| cache := cache empty_world;
          log := log empty_world
                 ++ [(ERROR, "Requested Terms and Conditions that Have Not Been Created.")] |}).
Proof.
  assert (∀ t, t ∈ terms_rows nothing_activated → ¬ activated 10 DEFAULT_TERMS_SLUG t) as Hno.
  { intros t Hin [_ (d & Hd & Hle)]. simpl in Hin.
    apply elem_of_cons in Hin as [->|Hin]; [discriminate|].
    apply list_elem_of_singleton in Hin as ->. injection Hd as <-. lia. }
  split; [reflexivity|]. split; [exact Hno|].
  exact (agreed_to_latest_nothing_activated first_row_key nothing_activated 10 7
           DEFAULT_TERMS_SLUG empty_world eq_refl Hno).
Defined.

(** ** Further properties of [get_active_terms_not_agreed_to] *)

(** X8.  Before the first migration, with neither entry cached, what
    [get_active_terms_not_agreed_to] does depends on how the backend reports
    the missing tables.  Where it is [ProgrammingError] the helper returns the
    empty query set for every user: [get_active_terms_ids] absorbs the failure
    and, with no key to look for, no query is sent.  On SQLite the
    [OperationalError] raised inside [get_active_terms_ids] is not among the
    exceptions the helper handles and reaches the caller, the state being as
    it was. *)
Theorem not_agreed_unmigrated now usr w :
  cache_miss not_agreed_terms_key w →
  cache_miss active_terms_ids_key w →
  get_active_terms_not_agreed_to Unmigrated now usr w =
    (Ok (PQuerySet []),
     {| cache := <[not_agreed_terms_key := PQuerySet []]> (cache w);
        log := log w ++ [(WARNING, "Unable to find active terms ids because terms and conditions tables not initialized.")] |})
  ∧ get_active_terms_not_agreed_to UnmigratedSQLite now usr w
    = (Raise OperationalError, w).
Proof.
  intros Hmiss Hmiss_ids.
  rewrite !not_agreed_on_miss, !not_agreed_lookup_eq by done.
  by rewrite !get_active_terms_ids_on_miss, !get_active_terms_ids_lookup_eq.
Qed.

Lemma not_agreed_unmigrated_witness :
  cache_miss not_agreed_terms_key empty_world
  ∧ cache_miss active_terms_ids_key empty_world
  ∧ get_active_terms_not_agreed_to Unmigrated 10 7 empty_world =
      (Ok (PQuerySet []),
       {| cache := <[not_agreed_terms_key := PQuerySet []]> (cache empty_world);
          log := log empty_world ++ [(WARNING, "Unable to find active terms ids because terms and conditions tables not initialized.")] |})
  ∧ get_active_terms_not_agreed_to UnmigratedSQLite 10 7 empty_world
    = (Raise OperationalError, empty_world).
Proof.
  split; [reflexivity|]. split; [reflexivity|].
  exact (not_agreed_unmigrated 10 7 empty_world eq_refl eq_refl).
Defined.

(** X9.  On a cache miss, with [ids] the list that [get_active_terms_ids]
    returns in the same state, [get_active_terms_not_agreed_to user] returns
    the empty query set exactly when the user has an acceptance row for every
    row whose key is in [ids]. *)
Theorem not_agreed_empty_iff_all_accepted tb now usr w ids w1 :
  NoDup (ut_pk <$> userterms_rows tb) →
  cache_miss not_agreed_terms_key w →
  get_active_terms_ids (Migrated tb) now w = (Ok (PIds ids), w1) →
  ∃ rows,
    (get_active_terms_not_agreed_to (Migrated tb) now usr w).1 = Ok (PQuerySet rows)
    ∧ (rows = [] ↔
       ∀ t, t ∈ terms_rows tb → pk t ∈ ids → has_accepted tb usr t).
Proof.
  intros Hupk Hmiss Hids.
  destruct (not_agreed_query_spec tb ids usr Hupk) as (rows & Hq & _ & Hperm).
  exists rows. rewrite not_agreed_on_miss, not_agreed_lookup_eq, Hids by done.
  simpl as_id_list. cbv iota. rewrite Hq. split; [done|]. split.
  - intros -> t Hin Hid.
    destruct (decide (has_accepted tb usr t)) as [|Hn]; [done|].
    assert (t ∈ filter (λ t, pk t ∈ ids ∧ ¬ has_accepted tb usr t) (terms_rows tb)) as Hf
      by (by apply list_elem_of_filter).
    rewrite <- Hperm in Hf. by apply not_elem_of_nil in Hf.
  - intros Hall. apply elem_of_nil_inv. intros t Ht. rewrite Hperm in Ht.
    apply list_elem_of_filter in Ht as [[Hid Hn] Hin]. by destruct Hn; apply Hall.
Qed.

Lemma not_agreed_empty_iff_all_accepted_witness :
  let w1 := (get_active_terms_ids (Migrated two_slugs) 10 empty_world).2 in
  NoDup (ut_pk <$> userterms_rows two_slugs)
  ∧ cache_miss not_agreed_terms_key empty_world
  ∧ get_active_terms_ids (Migrated two_slugs) 10 empty_world = (Ok (PIds [2; 3]), w1)
  ∧ ∃ rows,
      (get_active_terms_not_agreed_to (Migrated two_slugs) 10 7 empty_world).1
        = Ok (PQuerySet rows)
      ∧ (rows = [] ↔
         ∀ t, t ∈ terms_rows two_slugs → pk t ∈ [2; 3] → has_accepted two_slugs 7 t).
Proof.
  intros w1.
  assert (NoDup (ut_pk <$> userterms_rows two_slugs)) as Hupk.
  { apply (bool_decide_unpack _). vm_compute. exact I. }
  assert (get_active_terms_ids (Migrated two_slugs) 10 empty_world = (Ok (PIds [2; 3]), w1))
    as Hids by (vm_compute; reflexivity).
  split; [exact Hupk|]. split; [reflexivity|]. split; [exact Hids|].
  exact (not_agreed_empty_iff_all_accepted two_slugs 10 7 empty_world [2; 3] w1
           Hupk eq_refl Hids).
Defined.

Lemma StronglySorted_filter {A} (R : relation A) (P : A → Prop) `{∀ x, Decision (P x)}
    (l : list A) :
  StronglySorted R l → StronglySorted R (filter P l).
Proof.
  induction 1 as [|x l Hl IH Hx]; [constructor|].
  rewrite filter_cons. destruct (decide (P x)); [|done].
  constructor; [done|].
  apply Forall_forall. intros y [_ Hy]%list_elem_of_filter.
  by eapply Forall_forall in Hx.
Qed.

(** Selecting by the keys of one row per slug, with a further condition, and
    ordering by slug gives the rows in their order, minus those that fail the
    condition. *)
Lemma order_by_slug_filter_rows tb (G : list TermsAndConditions)
    (P : TermsAndConditions → Prop) `{∀ t, Decision (P t)} :
  NoDup (pk <$> terms_rows tb) →
  (∀ t, t ∈ G → t ∈ terms_rows tb) →
  NoDup (slug <$> G) → Sorted String.le (slug <$> G) →
  order_by_slug (filter (λ t, pk t ∈ pk <$> G ∧ P t) (terms_rows tb)) = filter P G.
Proof.
  intros Hpk Hsub Hnd Hsorted.
  set (F := filter (λ t, pk t ∈ pk <$> G ∧ P t) (terms_rows tb)).
  assert (F ≡ₚ filter P G) as Hperm.
  { apply NoDup_Permutation.
    - apply NoDup_filter. by eapply NoDup_fmap_1.
    - apply NoDup_filter. by eapply NoDup_fmap_1.
    - intros t. unfold F. rewrite !list_elem_of_filter. split.
      + intros [[(g & Hpkg & Hg)%list_elem_of_fmap HP] Hin]. split; [done|].
        by rewrite (NoDup_fmap_eq pk _ t g Hpk Hin (Hsub g Hg) Hpkg).
      + intros [HP Hin]. split; [|by apply Hsub]. split; [|done].
        by apply list_elem_of_fmap_2. }
  assert (order_by_slug F ≡ₚ filter P G) as Hperm'
    by (by rewrite order_by_slug_perm).
  apply (Sorted_unique_strong slug_le); [|apply order_by_slug_sorted| |done].
  - intros x1 x2 Hx1 Hx2 H12 H21.
    rewrite Hperm' in Hx1.
    apply list_elem_of_filter in Hx1 as [_ Hx1].
    apply list_elem_of_filter in Hx2 as [_ Hx2].
    apply (NoDup_fmap_eq slug G); [done..|].
    by apply (anti_symm String.le).
  - apply StronglySorted_Sorted, StronglySorted_filter.
    apply Sorted_StronglySorted; [apply _|].
    exact (Sorted_fmap_inv String.le slug G Hsorted).
Qed.

(** X16.  On a cold cache and a migrated database with unique primary keys,
    what [get_active_terms_not_agreed_to user] returns is what
    [get_active_terms_list] returns with the versions the user accepted
    removed, the order kept. *)
Theorem not_agreed_is_list_minus_accepted tb now usr w :
  primary_keys tb →
  cache_miss active_terms_ids_key w →
  cache_miss active_terms_list_key w →
  cache_miss not_agreed_terms_key w →
  ∃ listed,
    (get_active_terms_list (Migrated tb) now w).1 = Ok (PQuerySet listed)
    ∧ (get_active_terms_not_agreed_to (Migrated tb) now usr w).1
      = Ok (PQuerySet (filter (λ t, ¬ has_accepted tb usr t) listed)).
Proof.
  intros [Hpk Hupk] Hmiss_ids Hmiss_list Hmiss.
  set (G := active_terms_set tb now).
  assert (NoDup (slug <$> G)) as Hnd.
  { unfold G. rewrite active_terms_set_slugs. apply group_slugs_NoDup. }
  assert (Sorted String.le (slug <$> G)) as Hsorted.
  { unfold G. rewrite active_terms_set_slugs. apply group_slugs_sorted. }
  assert (∀ t, t ∈ G → t ∈ terms_rows tb) as Hsub.
  { intros t Ht. by apply active_terms_set_elem in Ht as [? _]. }
  exists G. split.
  - rewrite get_active_terms_list_on_miss, get_active_terms_list_lookup_eq by done.
    rewrite get_active_terms_ids_miss_migrated by done. fold G.
    simpl as_id_list. cbv iota.
    by rewrite (filter_id_in_rows tb G Hpk Hsub Hnd Hsorted).
  - rewrite not_agreed_on_miss, not_agreed_lookup_eq by done.
    rewrite get_active_terms_ids_miss_migrated by done. fold G.
    simpl as_id_list. cbv iota.
    assert (not_agreed_query (Migrated tb) (pk <$> G) usr
            = Ok (filter (λ t, ¬ has_accepted tb usr t) G)) as ->; [|done].
    destruct G as [|g G'] eqn:HG; [done|]. rewrite <- HG in *.
    assert (not_agreed_query (Migrated tb) (pk <$> G) usr
            = Ok (order_by_slug
                    (filter (λ t, pk t ∈ pk <$> G
                                  ∧ ¬ userterms_in tb (userterms_ids_of tb usr) t)
                            (terms_rows tb)))) as ->
      by (by rewrite HG).
    f_equal.
    rewrite (order_by_slug_filter_rows tb G
               (λ t, ¬ userterms_in tb (userterms_ids_of tb usr) t) Hpk Hsub Hnd Hsorted).
    apply list_filter_iff. intros t. by rewrite userterms_in_has_accepted.
Qed.

Lemma not_agreed_is_list_minus_accepted_witness :
  primary_keys two_slugs
  ∧ cache_miss active_terms_ids_key empty_world
  ∧ cache_miss active_terms_list_key empty_world
  ∧ cache_miss not_agreed_terms_key empty_world
  ∧ ∃ listed,
      (get_active_terms_list (Migrated two_slugs) 10 empty_world).1 = Ok (PQuerySet listed)
      ∧ (get_active_terms_not_agreed_to (Migrated two_slugs) 10 7 empty_world).1
        = Ok (PQuerySet (filter (λ t, ¬ has_accepted two_slugs 7 t) listed)).
Proof.
  assert (primary_keys two_slugs) as Hpk.
  { split; apply (bool_decide_unpack _); vm_compute; exact I. }
  split; [exact Hpk|]. split; [reflexivity|]. split; [reflexivity|]. split; [reflexivity|].
  exact (not_agreed_is_list_minus_accepted two_slugs 10 7 empty_world
           Hpk eq_refl eq_refl eq_refl).
Defined.

(** ** Cache keys that coincide *)

(** X13.  The key of [get_active] for the slug "ids" is the key of
    [get_active_terms_ids], and for the slug "list" it is the key of
    [get_active_terms_list].  Once [get_active "ids"] has returned a version,
    [get_active_terms_ids] returns that model instance in place of a list of
    keys; [get_active_terms_list], on a miss of its own entry, then ends in
    [TypeError], and [get_active_terms_not_agreed_to], on a miss of its own
    entry, returns [None].  Once [get_active "list"] has returned a version,
    [get_active_terms_list] returns that instance in place of a query set. *)
Theorem slug_keys_collide :
  (∀ db now w t w',
     get_active db now "ids" w = (Ok (PTerms t), w') →
     ∀ db' now' usr,
       get_active_terms_ids db' now' w' = (Ok (PTerms t), w')
       ∧ (cache_miss active_terms_list_key w' →
          get_active_terms_list db' now' w' = (Raise TypeError, w'))
       ∧ (cache_miss not_agreed_terms_key w' →
          get_active_terms_not_agreed_to db' now' usr w' = (Ok PNone, w')))
  ∧ (∀ db now w t w',
       get_active db now "list" w = (Ok (PTerms t), w') →
       ∀ db' now', get_active_terms_list db' now' w' = (Ok (PTerms t), w')).
Proof.
  split.
  - intros db now w t w' Hrun db' now' usr.
    pose proof (get_active_returned_is_cached db now "ids" w _ w' Hrun eq_refl) as Hc.
    change (active_terms_key "ids") with active_terms_ids_key in Hc.
    assert (get_active_terms_ids db' now' w' = (Ok (PTerms t), w')) as Hids.
    { rewrite get_active_terms_ids_hit; by rewrite Hc. }
    split; [done|]. split; intros Hmiss.
    + by rewrite get_active_terms_list_on_miss, get_active_terms_list_lookup_eq, Hids.
    + by rewrite not_agreed_on_miss, not_agreed_lookup_eq, Hids.
  - intros db now w t w' Hrun db' now'.
    pose proof (get_active_returned_is_cached db now "list" w _ w' Hrun eq_refl) as Hc.
    change (active_terms_key "list") with active_terms_list_key in Hc.
    rewrite get_active_terms_list_hit; by rewrite Hc.
Qed.

Lemma slug_keys_collide_witness :
  let t := mk_terms 1 "ids" (Some 5) in
  let w' := (get_active (Migrated slug_named_ids) 10 "ids" empty_world).2 in
  get_active (Migrated slug_named_ids) 10 "ids" empty_world = (Ok (PTerms t), w')
  ∧ cache_miss active_terms_list_key w'
  ∧ cache_miss not_agreed_terms_key w'
  ∧ get_active_terms_ids (Migrated slug_named_ids) 10 w' = (Ok (PTerms t), w')
  ∧ get_active_terms_list (Migrated slug_named_ids) 10 w' = (Raise TypeError, w')
  ∧ get_active_terms_not_agreed_to (Migrated slug_named_ids) 10 7 w' = (Ok PNone, w').
Proof.
  intros t w'.
  assert (get_active (Migrated slug_named_ids) 10 "ids" empty_world = (Ok (PTerms t), w'))
    as Hrun by (vm_compute; reflexivity).
  assert (cache_miss active_terms_list_key w') as Hl by (vm_compute; reflexivity).
  assert (cache_miss not_agreed_terms_key w') as Hn by (vm_compute; reflexivity).
  destruct (proj1 slug_keys_collide (Migrated slug_named_ids) 10 empty_world t w' Hrun
              (Migrated slug_named_ids) 10 7) as (Hids & Hlist & Hnot).
  split; [exact Hrun|]. split; [exact Hl|]. split; [exact Hn|].
  split; [exact Hids|]. split; [exact (Hlist Hl)|exact (Hnot Hn)].
Defined.
